(** * Ar_onlineshop: the AR furniture viewer of [src/js/app.js]

    A shallow embedding of the placement controller ([setupXR]), the
    loaders and the session lifecycle ([initAR], the click handler of
    [initApp]) as state-passing functions over an explicit [World], driven
    by the events the browser delivers.

    - Objects live in a heap and are named by their index, since the
      scene, [setupXR] and every activation of [initAR] share them.
    - An [async] function is cut at its [await]s: one definition up to the
      first, one for each resumption, given how the awaited promise
      settled. Between two such pieces any other event may come.
    - What the page shows (the loading bar, the display style of the
      triggers) and the camera's resize handler play no part in the
      properties below and are left out. *)

From Stdlib Require Import ZArith QArith Lia.
From stdpp Require Import base list strings.

Local Open Scope string_scope.
Local Open Scope list_scope.
Local Open Scope nat_scope.

(** ** Scene objects

    JS numbers are only ever copied by the program, never computed with,
    so rationals stand for them. *)

Definition number := Q.
Bind Scope Q_scope with number.

Record Vector3 := mkVector3 { v_x : number; v_y : number; v_z : number }.

Record Quaternion := mkQuaternion
  { q_x : number; q_y : number; q_z : number; q_w : number }.

(** A [THREE.Matrix4] is its [elements] array, column-major. *)
Definition Matrix4 := list number.

Record Object3D := mkObject3D {
  position : Vector3;
  quaternion : Quaternion;
  scale : Vector3;
  visible : bool;
  matrix : Matrix4
}.

Definition set_position (p : Vector3) (o : Object3D) : Object3D :=
  {| position := p; quaternion := quaternion o; scale := scale o;
     visible := visible o; matrix := matrix o |}.

Definition set_visible (b : bool) (o : Object3D) : Object3D :=
  {| position := position o; quaternion := quaternion o; scale := scale o;
     visible := b; matrix := matrix o |}.

Definition set_matrix (m : Matrix4) (o : Object3D) : Object3D :=
  {| position := position o; quaternion := quaternion o; scale := scale o;
     visible := visible o; matrix := m |}.

Definition identity4 : Matrix4 :=
  [1;0;0;0; 0;1;0;0; 0;0;1;0; 0;0;0;1]%Q.

Definition newObject3D (p : Vector3) : Object3D :=
  {| position := p; quaternion := (mkQuaternion 0 0 0 1)%Q;
     scale := (mkVector3 1 1 1)%Q; visible := true; matrix := identity4 |}.

(** ** The three.js methods the program calls

    The library lives in [libs/three125/three.module.js], outside [src/]. *)

(** Modelled from the spec: [Vector3.setFromMatrixPosition] of
    libs/three125 is missing; "the object's position is taken from the
    marker's current transform", that is elements 12, 13, 14 of the
    matrix. *)
Definition setFromMatrixPosition (m : Matrix4) : Vector3 :=
  mkVector3 (nth 12 m 0%Q) (nth 13 m 0%Q) (nth 14 m 0%Q).

(** Modelled from the spec: [Matrix4.fromArray] of libs/three125 is
    missing; the marker's transform becomes the reported pose: the first
    sixteen entries of the array are copied. *)
Definition fromArray (a : list number) : Matrix4 :=
  map (fun i => nth i a 0%Q) (seq 0 16).

(** Modelled from the spec: [Object3D.remove] of libs/three125 is
    missing; the object is "removed from the scene": the first occurrence
    among the children is spliced out. *)
Fixpoint remove_child (c : nat) (cs : list nat) : list nat :=
  match cs with
  | [] => []
  | d :: cs' => if decide (c = d) then cs' else d :: remove_child c cs'
  end.

(** Modelled from the spec: [Object3D.add] of libs/three125 is missing;
    the object is "added to the scene": detached from its parent, then
    pushed. *)
Definition add_child (c : nat) (cs : list nat) : list nat :=
  remove_child c cs ++ [c].

(** ** Errors, completions and promise settlements *)

Inductive Error :=
| ReferenceError (ident : string)
| TypeError (what : string)
| HostError (msg : string).

Inductive Completion :=
| Normal
| Throw (e : Error).

Inductive Settle (A : Type) :=
| Fulfil (a : A)
| Reject (e : Error).
Arguments Fulfil {A} a.
Arguments Reject {A} e.

(** ** The host side: sessions, listeners, pending promises *)

Inductive Listener :=
| OnSessionEnded (cid : nat)   (* [onSessionEnded] of activation [cid] of initAR *)
| HitTestReset.                (* the arrow function of requestHitTestSource *)

#[global] Instance Listener_eq_dec : EqDecision Listener.
Proof. solve_decision. Defined.

Record Session := mkSession { listeners : list Listener; ended : bool }.

Inductive Pending :=
| PChair (chairId : string)   (* loader.loadAsync(`chair${id}.glb`) *)
| PSession (cid : nat)        (* navigator.xr.requestSession, awaited by activation cid *)
| PRefSpace (s : nat)         (* session.requestReferenceSpace('viewer') *)
| PHitSource (s : nat)        (* session.requestHitTestSource({ space }) *)
| PSettled.

(** What the program asks of the host and of the renderer, in order. *)
Inductive Action :=
| ARequestSession
| AEndSession (s : nat)
| AAcquireHitTest              (* a call of the local requestHitTestSource *)
| ARequestReferenceSpace (s : nat)
| ARequestHitTestSource (s : nat)
| ARenderScene.                (* renderer.render(scene, camera) reached *)

#[global] Instance Action_eq_dec : EqDecision Action.
Proof. solve_decision. Defined.

Inductive Callback := CbRender.

(** The variables one call of [initAR] closes over. *)
Record ARClosure := mkAR { currentSession : option nat; ar_chair : option nat }.

Record XRFrame := mkFrame { hitPoses : list (list number) }.

Record World := mkWorld {
  (* three.js objects by reference, and the scene graph *)
  heap : list Object3D;
  children : list nat;
  environment : option nat;
  (* the variables setupXR closes over *)
  reticle : option nat;
  hitTestSourceRequested : bool;
  hitTestSource : option nat;
  chair : option nat;
  (* renderer *)
  animationLoop : option Callback;
  xrSession : option nat;
  (* activations of initAR *)
  closures : list ARClosure;
  (* host *)
  sessions : list Session;
  promises : list Pending;
  globals : list string;
  console : list (string * Error);
  unhandled : list Error;
  uncaught : list Error;
  trace : list Action
}.

(** Field updates of [World]. *)

Definition set_heap (v : list Object3D) (w : World) : World :=
  {| heap := v; children := children w; environment := environment w;
     reticle := reticle w;
     hitTestSourceRequested := hitTestSourceRequested w;
     hitTestSource := hitTestSource w; chair := chair w;
     animationLoop := animationLoop w; xrSession := xrSession w;
     closures := closures w; sessions := sessions w;
     promises := promises w; globals := globals w; console := console w;
     unhandled := unhandled w; uncaught := uncaught w; trace := trace w |}.

Definition set_children (v : list nat) (w : World) : World :=
  {| heap := heap w; children := v; environment := environment w;
     reticle := reticle w;
     hitTestSourceRequested := hitTestSourceRequested w;
     hitTestSource := hitTestSource w; chair := chair w;
     animationLoop := animationLoop w; xrSession := xrSession w;
     closures := closures w; sessions := sessions w;
     promises := promises w; globals := globals w; console := console w;
     unhandled := unhandled w; uncaught := uncaught w; trace := trace w |}.

Definition set_environment (v : option nat) (w : World) : World :=
  {| heap := heap w; children := children w; environment := v;
     reticle := reticle w;
     hitTestSourceRequested := hitTestSourceRequested w;
     hitTestSource := hitTestSource w; chair := chair w;
     animationLoop := animationLoop w; xrSession := xrSession w;
     closures := closures w; sessions := sessions w;
     promises := promises w; globals := globals w; console := console w;
     unhandled := unhandled w; uncaught := uncaught w; trace := trace w |}.

Definition set_reticle (v : option nat) (w : World) : World :=
  {| heap := heap w; children := children w; environment := environment w;
     reticle := v; hitTestSourceRequested := hitTestSourceRequested w;
     hitTestSource := hitTestSource w; chair := chair w;
     animationLoop := animationLoop w; xrSession := xrSession w;
     closures := closures w; sessions := sessions w;
     promises := promises w; globals := globals w; console := console w;
     unhandled := unhandled w; uncaught := uncaught w; trace := trace w |}.

Definition set_hitTestSourceRequested (v : bool) (w : World) : World :=
  {| heap := heap w; children := children w; environment := environment w;
     reticle := reticle w; hitTestSourceRequested := v;
     hitTestSource := hitTestSource w; chair := chair w;
     animationLoop := animationLoop w; xrSession := xrSession w;
     closures := closures w; sessions := sessions w;
     promises := promises w; globals := globals w; console := console w;
     unhandled := unhandled w; uncaught := uncaught w; trace := trace w |}.

Definition set_hitTestSource (v : option nat) (w : World) : World :=
  {| heap := heap w; children := children w; environment := environment w;
     reticle := reticle w;
     hitTestSourceRequested := hitTestSourceRequested w;
     hitTestSource := v; chair := chair w;
     animationLoop := animationLoop w; xrSession := xrSession w;
     closures := closures w; sessions := sessions w;
     promises := promises w; globals := globals w; console := console w;
     unhandled := unhandled w; uncaught := uncaught w; trace := trace w |}.

Definition set_chair (v : option nat) (w : World) : World :=
  {| heap := heap w; children := children w; environment := environment w;
     reticle := reticle w;
     hitTestSourceRequested := hitTestSourceRequested w;
     hitTestSource := hitTestSource w; chair := v;
     animationLoop := animationLoop w; xrSession := xrSession w;
     closures := closures w; sessions := sessions w;
     promises := promises w; globals := globals w; console := console w;
     unhandled := unhandled w; uncaught := uncaught w; trace := trace w |}.

Definition set_animationLoop (v : option Callback) (w : World) : World :=
  {| heap := heap w; children := children w; environment := environment w;
     reticle := reticle w;
     hitTestSourceRequested := hitTestSourceRequested w;
     hitTestSource := hitTestSource w; chair := chair w;
     animationLoop := v; xrSession := xrSession w; closures := closures w;
     sessions := sessions w; promises := promises w; globals := globals w;
     console := console w; unhandled := unhandled w;
     uncaught := uncaught w; trace := trace w |}.

Definition set_xrSession (v : option nat) (w : World) : World :=
  {| heap := heap w; children := children w; environment := environment w;
     reticle := reticle w;
     hitTestSourceRequested := hitTestSourceRequested w;
     hitTestSource := hitTestSource w; chair := chair w;
     animationLoop := animationLoop w; xrSession := v;
     closures := closures w; sessions := sessions w;
     promises := promises w; globals := globals w; console := console w;
     unhandled := unhandled w; uncaught := uncaught w; trace := trace w |}.

Definition set_closures (v : list ARClosure) (w : World) : World :=
  {| heap := heap w; children := children w; environment := environment w;
     reticle := reticle w;
     hitTestSourceRequested := hitTestSourceRequested w;
     hitTestSource := hitTestSource w; chair := chair w;
     animationLoop := animationLoop w; xrSession := xrSession w;
     closures := v; sessions := sessions w; promises := promises w;
     globals := globals w; console := console w; unhandled := unhandled w;
     uncaught := uncaught w; trace := trace w |}.

Definition set_sessions (v : list Session) (w : World) : World :=
  {| heap := heap w; children := children w; environment := environment w;
     reticle := reticle w;
     hitTestSourceRequested := hitTestSourceRequested w;
     hitTestSource := hitTestSource w; chair := chair w;
     animationLoop := animationLoop w; xrSession := xrSession w;
     closures := closures w; sessions := v; promises := promises w;
     globals := globals w; console := console w; unhandled := unhandled w;
     uncaught := uncaught w; trace := trace w |}.

Definition set_promises (v : list Pending) (w : World) : World :=
  {| heap := heap w; children := children w; environment := environment w;
     reticle := reticle w;
     hitTestSourceRequested := hitTestSourceRequested w;
     hitTestSource := hitTestSource w; chair := chair w;
     animationLoop := animationLoop w; xrSession := xrSession w;
     closures := closures w; sessions := sessions w; promises := v;
     globals := globals w; console := console w; unhandled := unhandled w;
     uncaught := uncaught w; trace := trace w |}.

Definition set_console (v : list (string * Error)) (w : World) : World :=
  {| heap := heap w; children := children w; environment := environment w;
     reticle := reticle w;
     hitTestSourceRequested := hitTestSourceRequested w;
     hitTestSource := hitTestSource w; chair := chair w;
     animationLoop := animationLoop w; xrSession := xrSession w;
     closures := closures w; sessions := sessions w;
     promises := promises w; globals := globals w; console := v;
     unhandled := unhandled w; uncaught := uncaught w; trace := trace w |}.

Definition set_unhandled (v : list Error) (w : World) : World :=
  {| heap := heap w; children := children w; environment := environment w;
     reticle := reticle w;
     hitTestSourceRequested := hitTestSourceRequested w;
     hitTestSource := hitTestSource w; chair := chair w;
     animationLoop := animationLoop w; xrSession := xrSession w;
     closures := closures w; sessions := sessions w;
     promises := promises w; globals := globals w; console := console w;
     unhandled := v; uncaught := uncaught w; trace := trace w |}.

Definition set_uncaught (v : list Error) (w : World) : World :=
  {| heap := heap w; children := children w; environment := environment w;
     reticle := reticle w;
     hitTestSourceRequested := hitTestSourceRequested w;
     hitTestSource := hitTestSource w; chair := chair w;
     animationLoop := animationLoop w; xrSession := xrSession w;
     closures := closures w; sessions := sessions w;
     promises := promises w; globals := globals w; console := console w;
     unhandled := unhandled w; uncaught := v; trace := trace w |}.

Definition set_trace (v : list Action) (w : World) : World :=
  {| heap := heap w; children := children w; environment := environment w;
     reticle := reticle w;
     hitTestSourceRequested := hitTestSourceRequested w;
     hitTestSource := hitTestSource w; chair := chair w;
     animationLoop := animationLoop w; xrSession := xrSession w;
     closures := closures w; sessions := sessions w;
     promises := promises w; globals := globals w; console := console w;
     unhandled := unhandled w; uncaught := uncaught w; trace := v |}.

(** ** Small vocabulary shared by the handlers *)

Definition log (a : Action) (w : World) : World :=
  set_trace (trace w ++ [a]) w.

Definition console_error (msg : string) (e : Error) (w : World) : World :=
  set_console (console w ++ [(msg, e)]) w.

(** A rejected promise nobody attached a handler to. *)
Definition unhandled_rejection (e : Error) (w : World) : World :=
  set_unhandled (unhandled w ++ [e]) w.

(** An exception that escapes an event handler or a frame callback. *)
Definition record (c : Completion) (w : World) : World :=
  match c with
  | Normal => w
  | Throw e => set_uncaught (uncaught w ++ [e]) w
  end.

(** A new object: its reference is its index in the heap. *)
Definition alloc (o : Object3D) (w : World) : nat * World :=
  (length (heap w), set_heap (heap w ++ [o]) w).

Definition new_promise (p : Pending) (w : World) : World :=
  set_promises (promises w ++ [p]) w.

Definition settle (pid : nat) (w : World) : World :=
  set_promises (<[pid := PSettled]> (promises w)) w.

Definition scene_add (c : nat) (w : World) : World :=
  set_children (add_child c (children w)) w.

Definition scene_remove (c : nat) (w : World) : World :=
  set_children (remove_child c (children w)) w.

Definition addEventListener (s : nat) (l : Listener) (w : World) : World :=
  set_sessions
    (alter (fun ses => mkSession (listeners ses ++ [l]) (ended ses)) s
       (sessions w)) w.

Definition removeEventListener (s : nat) (l : Listener) (w : World) : World :=
  set_sessions
    (alter (fun ses =>
              mkSession (filter (fun l' => l' <> l) (listeners ses)) (ended ses))
       s (sessions w)) w.

(** Statements in sequence: an exception skips what follows. *)
Definition Stmt := World -> World * Completion.

Definition then_ (a b : Stmt) : Stmt :=
  fun w => match a w with
           | (w', Normal) => b w'
           | (w', Throw e) => (w', Throw e)
           end.
Infix ">>>" := then_ (at level 65, right associativity).

Definition skip : Stmt := fun w => (w, Normal).
Definition exec (f : World -> World) : Stmt := fun w => (f w, Normal).

(** ** Lexical scopes of [app.js]

    The names each scope of the source declares, and identifier
    resolution along a scope chain that ends in the host's global object. *)

Definition module_scope : list string :=
  ["THREE"; "GLTFLoader"; "RGBELoader"; "LoadingBar";
   "assetsPath"; "hdrPath"; "reticlePath";
   "initScene"; "initCamera"; "initRenderer"; "setEnvironment";
   "loadReticle"; "setupXR"; "loadChair"; "initAR"; "initApp"].

Definition initApp_scope : list string :=
  ["container"; "scene"; "camera"; "renderer"; "reticle"; "render"; "setChair"].

Definition setupXR_scope : list string :=
  ["renderer"; "scene"; "reticle";
   "hitTestSourceRequested"; "hitTestSource"; "chair"; "onSelect";
   "controller"; "requestHitTestSource"; "getHitTestResults"; "render"].

Definition render_scope : list string := ["timestamp"; "frame"].

(** [render] is declared inside [setupXR], which is declared at module
    level: the scope of [initApp] is not on its chain. *)
Definition render_chain : list (list string) :=
  [render_scope; setupXR_scope; module_scope].

Definition bound (chain : list (list string)) (x : string) (w : World) : bool :=
  existsb (fun sc => bool_decide (x ∈ sc)) chain || bool_decide (x ∈ globals w).

Definition ident (chain : list (list string)) (x : string) : Stmt :=
  fun w => if bound chain x w then (w, Normal)
           else (w, Throw (ReferenceError x)).

(** ** setupXR: the placement controller *)

(** [onSelect], lines 78-83. *)
Definition onSelect : Stmt := fun w =>
  match chair w with
  | None => (w, Normal)
  | Some c =>
    match reticle w with
    | None => (w, Throw (TypeError "reticle.visible"))
    | Some r =>
      match heap w !! r with
      | None => (w, Normal)
      | Some R =>
        if visible R then
          let p := setFromMatrixPosition (matrix R) in
          let w1 := set_heap (alter (set_position p) c (heap w)) w in
          (set_heap (alter (set_visible true) c (heap w1)) w1, Normal)
        else (w, Normal)
      end
    end
  end.

Definition setChair (newChair : option nat) (w : World) : World :=
  set_chair newChair w.

(** [requestHitTestSource], lines 89-100, up to its first [await]. *)
Definition requestHitTestSource (w : World) : World :=
  let w := log AAcquireHitTest w in
  match xrSession w with
  | None => unhandled_rejection (TypeError "session.requestReferenceSpace") w
  | Some s => new_promise (PRefSpace s) (log (ARequestReferenceSpace s) w)
  end.

(** ... resumed when the reference space promise settles ... *)
Definition requestHitTestSource_space (s : nat) (r : Settle unit) (w : World)
  : World :=
  match r with
  | Reject e => unhandled_rejection e w
  | Fulfil _ => new_promise (PHitSource s) (log (ARequestHitTestSource s) w)
  end.

(** ... and resumed again when the hit-test source promise settles. *)
Definition requestHitTestSource_source (s : nat) (r : Settle nat) (w : World)
  : World :=
  match r with
  | Reject e => unhandled_rejection e w
  | Fulfil src =>
    let w := set_hitTestSource (Some src) w in
    let w := addEventListener s HitTestReset w in
    set_hitTestSourceRequested true w
  end.

(** The listener installed at line 94. *)
Definition hitTestReset (w : World) : World :=
  set_hitTestSource None (set_hitTestSourceRequested false w).

(** [getHitTestResults], lines 102-115. *)
Definition getHitTestResults (frame : XRFrame) : Stmt := fun w =>
  match hitTestSource w with
  | None => (w, Normal)
  | Some _ =>
    let hitTestResults := hitPoses frame in
    if bool_decide (length hitTestResults <> 0) then
      match hitTestResults !! 0 with
      | None => (w, Throw (TypeError "hitTestResults[0].getPose"))
      | Some pose =>
        match reticle w with
        | None => (w, Throw (TypeError "reticle.visible"))
        | Some r =>
          let w1 := set_heap (alter (set_visible true) r (heap w)) w in
          (set_heap (alter (set_matrix (fromArray pose)) r (heap w1)) w1,
           Normal)
        end
      end
    else
      match reticle w with
      | None => (w, Throw (TypeError "reticle.visible"))
      | Some r => (set_heap (alter (set_visible false) r (heap w)) w, Normal)
      end
  end.

(** The call [renderer.render(scene, camera)] of line 126: the callee
    and the arguments are evaluated left to right, then the scene is
    drawn. *)
Definition draw_call : Stmt :=
  ident render_chain "renderer" >>> ident render_chain "scene" >>>
  ident render_chain "camera" >>> exec (log ARenderScene).

(** [render], lines 117-127. *)
Definition render (timestamp : Z) (frame : option XRFrame) : Stmt :=
  (fun w => match frame with
            | Some _ => if negb (hitTestSourceRequested w)
                        then (requestHitTestSource w, Normal)
                        else (w, Normal)
            | None => (w, Normal)
            end) >>>
  (match frame with
   | Some f => getHitTestResults f
   | None => skip
   end) >>>
  draw_call.

(** ** The loaders

    Each is an async function around one [await loader.loadAsync(..)]
    inside [try]/[catch]; it is given here from the point where that fetch
    settles, and yields the settlement of its own promise ([None] stands
    for [undefined]). *)

(** [setEnvironment], lines 33-46. The pre-filtered map is identified
    with the texture it is made from. *)
Definition setEnvironment (fetch : Settle nat) (w : World)
  : World * Settle (option nat) :=
  match fetch with
  | Fulfil texture => (set_environment (Some texture) w, Fulfil None)
  | Reject err =>
    (console_error "An error occurred setting the environment" err w,
     Fulfil None)
  end.

(** [loadReticle], lines 48-59. *)
Definition loadReticle (fetch : Settle Object3D) (w : World)
  : World * Settle (option nat) :=
  match fetch with
  | Fulfil gltf_scene =>
    let '(reticle, w) := alloc gltf_scene w in
    let w := set_heap (alter (set_visible false) reticle (heap w)) w in
    let w := scene_add reticle w in
    (w, Fulfil (Some reticle))
  | Reject err =>
    (console_error "An error occurred loading the reticle" err w, Fulfil None)
  end.

(** [loadChair], lines 132-147. *)
Definition loadChair (fetch : Settle Object3D) (w : World)
  : World * Settle (option nat) :=
  match fetch with
  | Fulfil gltf_scene =>
    let '(chair, w) := alloc gltf_scene w in
    let w := set_heap (alter (set_visible false) chair (heap w)) w in
    let w := scene_add chair w in
    (w, Fulfil (Some chair))
  | Reject err =>
    (console_error "An error occurred loading the chair" err w, Fulfil None)
  end.

(** ** initAR: the session lifecycle *)

Definition set_currentSession (cid : nat) (v : option nat) (w : World) : World :=
  set_closures
    (alter (fun cl => mkAR v (ar_chair cl)) cid (closures w)) w.

Definition set_ar_chair (cid : nat) (v : option nat) (w : World) : World :=
  set_closures
    (alter (fun cl => mkAR (currentSession cl) v) cid (closures w)) w.

Definition setAnimationLoop (cb : option Callback) (w : World) : World :=
  set_animationLoop cb w.

(** [onSessionStarted], lines 154-161, of activation [cid]. *)
Definition onSessionStarted (cid : nat) (session : nat) (w : World) : World :=
  let w := addEventListener session (OnSessionEnded cid) w in
  let w := set_xrSession (Some session) w in      (* renderer.xr.setSession *)
  set_currentSession cid (Some session) w.

(** [onSessionEnded], lines 163-175, of activation [cid]. *)
Definition onSessionEnded (cid : nat) (w : World) : World :=
  match closures w !! cid with
  | None => w
  | Some cl =>
    match currentSession cl with
    | Some s =>
      let w := removeEventListener s (OnSessionEnded cid) w in
      let w := set_currentSession cid None w in
      let w := match ar_chair cl with
               | Some c => set_ar_chair cid None (scene_remove c w)
               | None => w
               end in
      setAnimationLoop None w
    | None => w
    end
  end.

(** [initAR], lines 149-183, up to its [await]: a new activation with its
    own [currentSession], then the test of line 177. *)
Definition initAR (chair : option nat) (w : World) : World :=
  let activation := {| currentSession := None; ar_chair := chair |} in
  let cid := length (closures w) in
  let w := set_closures (closures w ++ [activation]) w in
  match currentSession activation with
  | None => new_promise (PSession cid) (log ARequestSession w)
  | Some s => log (AEndSession s) w
  end.

(** ... resumed when the session request settles. No [try] surrounds the
    [await]: a rejection settles initAR's own promise. *)
Definition initAR_resume (cid : nat) (r : Settle nat) (w : World)
  : World * Settle unit :=
  match r with
  | Fulfil session => (onSessionStarted cid session w, Fulfil tt)
  | Reject e => (w, Reject e)
  end.

(** ** initApp and its click handler *)

Definition empty_world (host_globals : list string) : World :=
  {| heap := []; children := []; environment := None; reticle := None;
     hitTestSourceRequested := false; hitTestSource := None; chair := None;
     animationLoop := None; xrSession := None; closures := [];
     sessions := []; promises := []; globals := host_globals;
     console := []; unhandled := []; uncaught := []; trace := [] |}.

(** [initScene], lines 10-16. The light comes out of its constructor
    with its matrix already composed at (0, 1, 0); line 13 then moves
    its position only. *)
Definition initScene (w : World) : World :=
  let light :=
    set_matrix [1;0;0;0; 0;1;0;0; 0;0;1;0; 0;1;0;1]%Q
      (newObject3D (mkVector3 (1#2) 1 (1#4))%Q) in
  let '(ambient, w) := alloc light w in
  scene_add ambient w.

(** [setupXR], lines 61-130: the closure variables get their initial
    values and the controller, which the renderer hands out hidden, joins
    the scene. The support check of lines 64-72 (which reveals the
    triggers on the page) is not part of this model. *)
Definition setupXR (reticle : option nat) (w : World) : World :=
  let w := set_reticle reticle w in
  let w := set_hitTestSourceRequested false w in
  let w := set_hitTestSource None w in
  let w := set_chair None w in
  let '(controller, w) :=
    alloc (set_visible false (newObject3D (mkVector3 0 0 0)%Q)) w in
  scene_add controller w.

(** [initApp], lines 185-212, given how the two start-up fetches settle. *)
Definition initApp (host_globals : list string)
    (hdr : Settle nat) (reticle_gltf : Settle Object3D) : World :=
  let w := initScene (empty_world host_globals) in
  match setEnvironment hdr w with
  | (w, Reject e) => unhandled_rejection e w
  | (w, Fulfil _) =>
    match loadReticle reticle_gltf w with
    | (w, Reject e) => unhandled_rejection e w
    | (w, Fulfil reticle) => setupXR reticle w
    end
  end.

(** The click handler, lines 204-210, up to [await loadChair(..)] ... *)
Definition onClick (chairId : string) (w : World) : World :=
  new_promise (PChair chairId) w.

(** ... and from there on. The promise of [initAR] is dropped. *)
Definition onClick_resume (fetch : Settle Object3D) (w : World) : World :=
  match loadChair fetch w with
  | (w, Reject e) => unhandled_rejection e w
  | (w, Fulfil chair) =>
    let w := setChair chair w in
    let w := initAR chair w in
    setAnimationLoop (Some CbRender) w
  end.

(** ** The event loop

    Everything the browser can deliver to the page once [initApp] has
    run: clicks on a trigger element, settlements of the promises the
    program is waiting on, animation frames, select inputs and the end of
    a session.

    A frame is handed to [render] whenever the animation loop is set. A
    renderer that asks for the next frame only once the callback has
    returned delivers, after a callback that threw, no further frame:
    its runs are among the runs below, and the failing runs that need a
    second frame are taken on a host where [render] returns. *)

Inductive Event :=
| EClick (chairId : string)
| EChairFetched (pid : nat) (r : Settle Object3D)
| ESessionRequest (pid : nat) (r : Settle unit)
| EReferenceSpace (pid : nat) (r : Settle unit)
| EHitTestSource (pid : nat) (r : Settle nat)
| EFrame (timestamp : Z) (frame : option XRFrame)
| ESelect
| ESessionEnd (s : nat).

Definition registered (s : nat) (l : Listener) (w : World) : bool :=
  match sessions w !! s with
  | Some ses => bool_decide (l ∈ listeners ses)
  | None => false
  end.

Definition run_listener (s : nat) (w : World) (l : Listener) : World :=
  if registered s l w then
    match l with
    | OnSessionEnded cid => onSessionEnded cid w
    | HitTestReset => hitTestReset w
    end
  else w.

(** The session fires ['end']: its listeners run in the order they were
    added, one that has been removed meanwhile is passed over. *)
Definition session_end (s : nat) (w : World) : World :=
  match sessions w !! s with
  | None => w
  | Some ses =>
    if ended ses then w
    else
      let w := foldl (run_listener s) w (listeners ses) in
      set_sessions
        (alter (fun ses => mkSession (listeners ses) true) s (sessions w)) w
  end.

(** The host grants an immersive session: a new session object. *)
Definition new_session (w : World) : nat * World :=
  (length (sessions w), set_sessions (sessions w ++ [mkSession [] false]) w).

Definition step (w : World) (ev : Event) : World :=
  match ev with
  | EClick chairId => onClick chairId w
  | EChairFetched pid r =>
    match promises w !! pid with
    | Some (PChair _) => onClick_resume r (settle pid w)
    | _ => w
    end
  | ESessionRequest pid r =>
    match promises w !! pid with
    | Some (PSession cid) =>
      let w := settle pid w in
      let '(w, res) :=
        match r with
        | Fulfil _ => let '(s, w) := new_session w in
                      initAR_resume cid (Fulfil s) w
        | Reject e => initAR_resume cid (Reject e) w
        end in
      match res with
      | Fulfil _ => w
      | Reject e => unhandled_rejection e w
      end
    | _ => w
    end
  | EReferenceSpace pid r =>
    match promises w !! pid with
    | Some (PRefSpace s) => requestHitTestSource_space s r (settle pid w)
    | _ => w
    end
  | EHitTestSource pid r =>
    match promises w !! pid with
    | Some (PHitSource s) => requestHitTestSource_source s r (settle pid w)
    | _ => w
    end
  | EFrame timestamp frame =>
    match animationLoop w with
    | Some CbRender => let '(w, c) := render timestamp frame w in record c w
    | None => w
    end
  | ESelect => let '(w, c) := onSelect w in record c w
  | ESessionEnd s => session_end s w
  end.

Definition run (w : World) (evs : list Event) : World := foldl step w evs.

(** The worlds the program can be in. *)
Inductive reachable : World -> Prop :=
| reach_init gl hdr gltf : reachable (initApp gl hdr gltf)
| reach_step w ev : reachable w -> reachable (step w ev).

(** ** Observations *)

Definition count_action (a : Action) (w : World) : nat :=
  length (filter (fun b => b = a) (trace w)).

Definition session_active (s : nat) (w : World) : bool :=
  match sessions w !! s with
  | Some ses => negb (ended ses)
  | None => false
  end.

Definition active_sessions (w : World) : list nat :=
  filter (fun s => session_active s w = true) (seq 0 (length (sessions w))).

(** Sample payloads. *)
Definition host_globals : list string :=
  ["window"; "document"; "navigator"; "console"].

Definition sample_gltf : Object3D := newObject3D (mkVector3 0 0 0)%Q.

Definition pose_at (x y z : number) : list number :=
  [1;0;0;0; 0;1;0;0; 0;0;1;0; x;y;z;1]%Q.

Definition booted : World := initApp host_globals (Fulfil 7) (Fulfil sample_gltf).

(** A click on the trigger for chair 3, the model arrives, the session is
    granted. *)
Definition session_trace : list Event :=
  [EClick "3"; EChairFetched 0 (Fulfil sample_gltf);
   ESessionRequest 1 (Fulfil tt)].

(** Then a first frame, the hit-test source arrives, and a frame reports
    a surface at (1, 0, 2). *)
Definition tracking_trace : list Event :=
  session_trace ++
  [EFrame 0 (Some (mkFrame [])); EReferenceSpace 2 (Fulfil tt);
   EHitTestSource 3 (Fulfil 9);
   EFrame 16 (Some (mkFrame [pose_at 1 0 2]))].

Definition in_session : World := run booted session_trace.
Definition tracking : World := run booted tracking_trace.

(** The hit-test source has arrived, no surface reported yet. *)
Definition acquired : World :=
  run in_session
    [EFrame 0 (Some (mkFrame [])); EReferenceSpace 2 (Fulfil tt);
     EHitTestSource 3 (Fulfil 9)].

(** The model has arrived and the session request is in flight. *)
Definition requesting : World :=
  run booted [EClick "3"; EChairFetched 0 (Fulfil sample_gltf)].

(** What a loader does with a rejected fetch: its own promise is
    fulfilled with [undefined], the error went to the console, and nothing
    else moved. *)
Definition caught_and_logged (err : Error) (w : World)
    (res : World * Settle (option nat)) : Prop :=
  res.2 = Fulfil None /\
  (exists msg, console res.1 = (console w ++ [(msg, err)])%list) /\
  set_console (console w) res.1 = w.

(** What the lifecycle keeps true: the scene graph lists no object twice;
    a session that has not ended carries, first among its listeners, the
    [onSessionEnded] of an activation whose [currentSession] is that
    session, followed by hit-test resets only; an activation still waiting
    for its session holds none, and is waited for by one promise only. *)
Record lifecycle_inv (w : World) : Prop := mkInv {
  inv_nodup : NoDup (children w);
  inv_sessions : forall s ses,
    sessions w !! s = Some ses -> ended ses = false ->
    exists cid rest cl,
      listeners ses = OnSessionEnded cid :: rest /\
      Forall (eq HitTestReset) rest /\
      closures w !! cid = Some cl /\
      currentSession cl = Some s;
  inv_pending : forall pid cid,
    promises w !! pid = Some (PSession cid) ->
    exists cl, closures w !! cid = Some cl /\ currentSession cl = None;
  inv_unique : forall p1 p2 cid,
    promises w !! p1 = Some (PSession cid) ->
    promises w !! p2 = Some (PSession cid) -> p1 = p2
}.

(** A handler is quiet when it leaves the scene graph, the activations
    and the sessions as they are and starts no session request. *)
Definition quiet (w w' : World) : Prop :=
  children w' = children w /\
  closures w' = closures w /\
  sessions w' = sessions w /\
  (forall p cid, promises w' !! p = Some (PSession cid) ->
                 promises w !! p = Some (PSession cid)).

(** Every object of the first heap is still there in the second, where it
    was. *)
Definition pos_kept (h h' : list Object3D) : Prop :=
  forall o O, h !! o = Some O ->
              exists O', h' !! o = Some O' /\ position O' = position O.

(** A host whose global object has a property named [camera] that is no
    three.js camera (the page has an element with that id, say): the
    identifier of line 126 resolves, the renderer refuses the argument
    and returns without drawing or touching any matrix, and [render]
    returns normally - so the next frame is asked for. *)
Definition camera_host : list string := host_globals ++ ["camera"].

Definition booted_cam : World :=
  initApp camera_host (Fulfil 7) (Fulfil sample_gltf).

Definition in_session_cam : World := run booted_cam session_trace.
Definition tracking_cam : World := run booted_cam tracking_trace.

(** The reading of "the pose is assigned once and never updated again":
    in a run in which no callback has thrown, once the placeable object
    has been placed (it is loaded hidden, and only a placement shows it)
    and while it is in the scene, no event moves it. *)
Definition pose_assigned_once : Prop :=
  forall (w : World) (ev : Event) (c : nat) (C C' : Object3D),
    reachable w -> uncaught w = [] ->
    chair w = Some c -> heap w !! c = Some C -> visible C = true ->
    c ∈ children w ->
    heap (step w ev) !! c = Some C' ->
    position C' = position C.

(** On that host: the object has been placed at (1, 0, 2); the surface
    under the viewer's gaze is now at (5, 0, 5). *)
Definition placed_then_moved : World :=
  run tracking_cam [ESelect; EFrame 32 (Some (mkFrame [pose_at 5 0 5]))].

(** On that host, with session 0 running: the trigger is clicked once
    more, its model arrives, the host refuses the second session request,
    and tracking goes on until a selection places the second model at
    (1, 0, 2). *)
Definition second_placed : World :=
  run in_session_cam
    [EClick "3"; EChairFetched 2 (Fulfil sample_gltf);
     ESessionRequest 3 (Reject (HostError "InvalidStateError"));
     EFrame 0 (Some (mkFrame [])); EReferenceSpace 4 (Fulfil tt);
     EHitTestSource 5 (Fulfil 9);
     EFrame 16 (Some (mkFrame [pose_at 1 0 2])); ESelect].

(** The marker fetch failed at start-up; then a click, its model, and
    the session. *)
Definition markerless : World :=
  run (initApp host_globals (Fulfil 7) (Reject (HostError "404")))
    session_trace.

(** With the session running, the trigger is clicked once more and its
    model arrives. *)
Definition clicked_again : World :=
  run in_session [EClick "3"; EChairFetched 2 (Fulfil sample_gltf)].

(** On that host, with the session running: a second frame is rendered
    after the reference space of the first has arrived, while its
    hit-test source has not. *)
Definition two_frames : World :=
  run in_session_cam
    [EFrame 0 (Some (mkFrame [])); EReferenceSpace 2 (Fulfil tt);
     EFrame 16 (Some (mkFrame []))].

(** The render loop runs and the latch is not set yet. *)
Definition waiting (w : World) : Prop :=
  animationLoop w = Some CbRender /\
  hitTestSourceRequested w = false /\
  hitTestSource w = None.

(** The second conjunct of the guard of [onSelect], read as a state of
    the world: there is a marker and it is visible. *)
Definition marker_visible (w : World) : bool :=
  match reticle w with
  | Some r => match heap w !! r with
              | Some R => visible R
              | None => false
              end
  | None => false
  end.

(** ** Further vocabulary for the lifecycle and the placement loop *)

(** The variables of [setupXR] and of the renderer that decide what a
    frame or a selection does, apart from the heap. *)
Definition same_controls (w w' : World) : Prop :=
  chair w' = chair w /\
  reticle w' = reticle w /\
  animationLoop w' = animationLoop w /\
  hitTestSourceRequested w' = hitTestSourceRequested w /\
  hitTestSource w' = hitTestSource w /\
  xrSession w' = xrSession w.

Definition is_session_end (ev : Event) : bool :=
  match ev with
  | ESessionEnd _ => true
  | _ => false
  end.

(** The translation column of a pose. *)
Definition pose_position (p : list number) : Vector3 :=
  mkVector3 (nth 12 p 0%Q) (nth 13 p 0%Q) (nth 14 p 0%Q).

Definition rejected {A} (r : Settle A) : nat :=
  match r with
  | Fulfil _ => 0
  | Reject _ => 1
  end.

(** The host grants the session request [pid]. *)
Definition granted (pid : nat) (w : World) : World :=
  step w (ESessionRequest pid (Fulfil tt)).

(** No activation holds a stale reference: the session it names is live
    and has that activation's handler first among its listeners. *)
Definition held_sessions_live (w : World) : Prop :=
  forall cid cl s,
    closures w !! cid = Some cl -> currentSession cl = Some s ->
    exists ses rest,
      sessions w !! s = Some ses /\ ended ses = false /\
      listeners ses = OnSessionEnded cid :: rest.

(** The host has been asked for a hit-test source at some point. *)
Definition source_requested (w : World) : Prop :=
  exists s, ARequestHitTestSource s ∈ trace w.

(** Where start-up puts things: the marker, if any, is object 1, and
    any object chosen later comes after the two or three start-up
    objects. *)
Definition layout (w : World) : Prop :=
  2 <= length (heap w) /\
  (forall r, reticle w = Some r -> r = 1) /\
  (forall c, chair w = Some c -> 2 <= c).

(** Whatever could show the marker presupposes a request for a hit-test
    source. *)
Definition tracking_inv (w : World) : Prop :=
  layout w /\
  (marker_visible w = true -> source_requested w) /\
  (hitTestSource w <> None -> source_requested w) /\
  (forall pid s, promises w !! pid = Some (PHitSource s) -> source_requested w).

(** Every child of the scene is an object of the heap. *)
Definition children_allocated (w : World) : Prop :=
  forall c, c ∈ children w -> c < length (heap w).

(** * Properties *)

(** ** Reading the heap through the updates the handlers make *)

Section HeapLemmas.

Implicit Types (h : list Object3D) (o c : nat) (O : Object3D).

Lemma lookup_alter_same h c O (f : Object3D -> Object3D) :
  h !! c = Some O -> alter f c h !! c = Some (f O).
Proof. intros H. rewrite list_lookup_alter_eq, H. reflexivity. Qed.

Lemma lookup_alter_other h c o (f : Object3D -> Object3D) :
  c <> o -> alter f c h !! o = h !! o.
Proof. intros H. by apply list_lookup_alter_ne. Qed.

Lemma fromArray_full (a : list number) : length a = 16 -> fromArray a = a.
Proof.
  intros H.
  do 16 (destruct a as [|? a]; [simpl in H; lia|]).
  destruct a; [reflexivity | simpl in H; lia].
Qed.

End HeapLemmas.

Lemma World_eta (w : World) :
  {| heap := heap w; children := children w; environment := environment w;
     reticle := reticle w;
     hitTestSourceRequested := hitTestSourceRequested w;
     hitTestSource := hitTestSource w; chair := chair w;
     animationLoop := animationLoop w; xrSession := xrSession w;
     closures := closures w; sessions := sessions w;
     promises := promises w; globals := globals w; console := console w;
     unhandled := unhandled w; uncaught := uncaught w; trace := trace w |} = w.
Proof. by destruct w. Qed.

(** ** onSelect *)

(** What the guard of [onSelect] achieves. If the object reference is
    set and the marker is visible, the object's position becomes the
    translation of the marker's matrix and the object becomes visible; if
    the reference is unset or the marker is not visible, the world is left
    exactly as it was; and no exception is raised, the marker having been
    loaded (or the reference being unset). *)
Theorem onSelect_places_iff_ready (w : World) :
  (forall c C,
      chair w = Some c -> heap w !! c = Some C -> marker_visible w = true ->
      exists r R C',
        reticle w = Some r /\ heap w !! r = Some R /\
        heap (onSelect w).1 !! c = Some C' /\
        position C' = setFromMatrixPosition (matrix R) /\
        visible C' = true /\
        (onSelect w).2 = Normal) /\
  (chair w = None \/ marker_visible w = false -> (onSelect w).1 = w) /\
  (chair w = None \/ is_Some (reticle w) -> (onSelect w).2 = Normal).
Proof.
  unfold marker_visible, onSelect. split_and!.
  - intros c C Hc HC Hv. rewrite Hc.
    destruct (reticle w) as [r|] eqn:Hr; [|done].
    destruct (heap w !! r) as [R|] eqn:HR; [|done].
    rewrite Hv. simpl.
    exists r, R,
      (set_visible true (set_position (setFromMatrixPosition (matrix R)) C)).
    split_and!; try done.
    apply lookup_alter_same. by apply lookup_alter_same.
  - intros H. destruct (chair w) as [c|]; [|done].
    destruct H as [[=]|H].
    destruct (reticle w) as [r|]; [|done].
    destruct (heap w !! r) as [R|]; [|done]. by rewrite H.
  - intros H. destruct (chair w) as [c|]; [|done].
    destruct H as [[=]|[r Hr]]. rewrite Hr.
    destruct (heap w !! r) as [R|]; [|done]. by destruct (visible R).
Qed.

Lemma onSelect_places_iff_ready_witness :
  exists r R C',
    reticle tracking = Some r /\ heap tracking !! r = Some R /\
    heap (onSelect tracking).1 !! 3 = Some C' /\
    position C' = setFromMatrixPosition (matrix R) /\
    visible C' = true /\
    (onSelect tracking).2 = Normal.
Proof.
  refine (proj1 (onSelect_places_iff_ready tracking)
            3 (set_visible false sample_gltf) _ _ _); reflexivity.
Defined.

(** C4 at the failing input. The marker fetch was rejected at start-up,
    so [loadReticle] returned [undefined] (and logged the failure); a
    model has been chosen and the session runs. The guard of line 79
    checks [chair] but not [reticle]: a selection then throws a
    [TypeError] out of the handler instead of being a no-op. *)
Theorem select_without_marker_throws :
  console markerless
    = [("An error occurred loading the reticle", HostError "404")] /\
  reticle markerless = None /\
  chair markerless = Some 2 /\
  active_sessions markerless = [0] /\
  onSelect markerless = (markerless, Throw (TypeError "reticle.visible")) /\
  uncaught (step markerless ESelect) = [TypeError "reticle.visible"].
Proof. vm_compute. done. Qed.

(** A selection writes to the heap and to nothing else ... *)
Lemma onSelect_heap_only (w : World) : set_heap (heap w) (onSelect w).1 = w.
Proof.
  unfold onSelect.
  destruct (chair w); [|exact (World_eta w)].
  destruct (reticle w) as [r|]; [|exact (World_eta w)].
  destruct (heap w !! r) as [R|]; [|exact (World_eta w)].
  destruct (visible R); exact (World_eta w).
Qed.

(** ... and there only to the cell of the placeable object. *)
Lemma onSelect_others (w : World) (o : nat) :
  chair w <> Some o -> heap (onSelect w).1 !! o = heap w !! o.
Proof.
  unfold onSelect. intros Ho.
  destruct (chair w) as [c|]; [|done].
  destruct (reticle w) as [r|]; [|done].
  destruct (heap w !! r) as [R|]; [|done].
  destruct (visible R); [|done]. simpl.
  assert (c <> o) by congruence. by rewrite !lookup_alter_other.
Qed.

(** C10. A selection changes nothing but the heap cell of the placeable
    object: the scene graph, the closure variables, the sessions and every
    other object are as before; of the object itself the rotation, the
    scale and the matrix are kept, and its position and visibility are
    either kept or become the marker's translation and [true]. *)
Theorem onSelect_frame (w : World) :
  set_heap (heap w) (onSelect w).1 = w /\
  length (heap (onSelect w).1) = length (heap w) /\
  (forall o, chair w <> Some o -> heap (onSelect w).1 !! o = heap w !! o) /\
  (forall c C,
      chair w = Some c -> heap w !! c = Some C ->
      exists C',
        heap (onSelect w).1 !! c = Some C' /\
        quaternion C' = quaternion C /\
        scale C' = scale C /\
        matrix C' = matrix C /\
        ((position C' = position C /\ visible C' = visible C) \/
         (exists r R, reticle w = Some r /\ heap w !! r = Some R /\
                      position C' = setFromMatrixPosition (matrix R) /\
                      visible C' = true))).
Proof.
  split; [apply onSelect_heap_only|].
  split; [|split; [apply onSelect_others|]].
  - unfold onSelect.
    destruct (chair w); [|done].
    destruct (reticle w) as [r|]; [|done].
    destruct (heap w !! r) as [R|]; [|done].
    destruct (visible R); [|done]. simpl. by rewrite !length_alter.
  - intros c C Hc HC. unfold onSelect. rewrite Hc.
    assert (Hsame : exists C', heap w !! c = Some C' /\
              quaternion C' = quaternion C /\ scale C' = scale C /\
              matrix C' = matrix C /\
              ((position C' = position C /\ visible C' = visible C) \/
               (exists r R, reticle w = Some r /\ heap w !! r = Some R /\
                            position C' = setFromMatrixPosition (matrix R) /\
                            visible C' = true)))
      by (exists C; repeat split; auto).
    destruct (reticle w) as [r|] eqn:Hr; [|exact Hsame].
    destruct (heap w !! r) as [R|] eqn:HR; [|exact Hsame].
    destruct (visible R) eqn:Hv; [|exact Hsame]. simpl.
    eexists. split.
    + apply lookup_alter_same. by apply lookup_alter_same.
    + simpl. repeat split. right. by exists r, R.
Qed.

Lemma onSelect_frame_witness :
  exists C',
    heap (onSelect tracking).1 !! 3 = Some C' /\
    quaternion C' = quaternion sample_gltf /\
    scale C' = scale sample_gltf /\
    matrix C' = matrix sample_gltf /\
    ((position C' = position (set_visible false sample_gltf) /\
      visible C' = visible (set_visible false sample_gltf)) \/
     (exists r R, reticle tracking = Some r /\ heap tracking !! r = Some R /\
                  position C' = setFromMatrixPosition (matrix R) /\
                  visible C' = true)).
Proof.
  refine (proj2 (proj2 (proj2 (onSelect_frame tracking)))
            3 (set_visible false sample_gltf) _ _); reflexivity.
Defined.

(** ** getHitTestResults *)

(** C5. After a hit-test query with a source at hand and the marker
    loaded: the marker is visible exactly when the query returned a
    result; then its matrix is the pose of the first result; with no
    result it is hidden. *)
Theorem getHitTestResults_marker
    (w : World) (f : XRFrame) (src r : nat) (R : Object3D) :
  hitTestSource w = Some src ->
  reticle w = Some r ->
  heap w !! r = Some R ->
  Forall (fun pose => length pose = 16) (hitPoses f) ->
  exists R',
    heap (getHitTestResults f w).1 !! r = Some R' /\
    (getHitTestResults f w).2 = Normal /\
    (visible R' = true <-> hitPoses f <> []) /\
    (forall pose rest, hitPoses f = pose :: rest -> matrix R' = pose) /\
    (hitPoses f = [] -> visible R' = false).
Proof.
  intros Hs Hr HR Hlen. unfold getHitTestResults. rewrite Hs, Hr.
  destruct (hitPoses f) as [|pose rest] eqn:Hf; simpl.
  - exists (set_visible false R). repeat split; try done.
    by apply lookup_alter_same.
  - exists (set_matrix (fromArray pose) (set_visible true R)).
    split; [apply lookup_alter_same; by apply lookup_alter_same|].
    repeat split; try done.
    intros pose' rest' [= <- <-]. simpl.
    apply fromArray_full. by inversion Hlen.
Qed.

Lemma getHitTestResults_marker_witness :
  exists R',
    heap (getHitTestResults (mkFrame [pose_at 1 0 2]) acquired).1 !! 1
      = Some R' /\
    (getHitTestResults (mkFrame [pose_at 1 0 2]) acquired).2 = Normal /\
    (visible R' = true <-> [pose_at 1 0 2] <> []) /\
    (forall pose rest, [pose_at 1 0 2] = pose :: rest -> matrix R' = pose) /\
    ([pose_at 1 0 2] = [] -> visible R' = false).
Proof.
  apply (getHitTestResults_marker acquired (mkFrame [pose_at 1 0 2]) 9 1
           (set_visible false (set_visible false sample_gltf)));
    try reflexivity.
  repeat constructor.
Defined.

(** ** render *)

Lemma bound_local (chain : list (list string)) (x : string) (w : World) :
  existsb (fun sc => bool_decide (x ∈ sc)) chain = true ->
  bound chain x w = true.
Proof. unfold bound. by intros ->. Qed.

Lemma camera_not_on_render_chain (w : World) :
  "camera" ∉ globals w -> bound render_chain "camera" w = false.
Proof.
  intros H. unfold bound.
  replace (existsb _ render_chain) with false by (vm_compute; reflexivity).
  simpl. by apply bool_decide_eq_false.
Qed.

Lemma count_action_log (a b : Action) (w : World) :
  a <> b -> count_action a (log b w) = count_action a w.
Proof.
  intros H. unfold count_action, log; simpl.
  rewrite filter_app, length_app, filter_cons, filter_nil.
  case_decide; [congruence | simpl; lia].
Qed.

Lemma requestHitTestSource_globals (w : World) :
  globals (requestHitTestSource w) = globals w.
Proof. unfold requestHitTestSource. simpl. by destruct (xrSession w). Qed.

Lemma requestHitTestSource_reticle (w : World) :
  reticle (requestHitTestSource w) = reticle w.
Proof. unfold requestHitTestSource. simpl. by destruct (xrSession w). Qed.

Lemma requestHitTestSource_draws (w : World) :
  count_action ARenderScene (requestHitTestSource w)
  = count_action ARenderScene w.
Proof.
  unfold requestHitTestSource. simpl. destruct (xrSession w); simpl.
  - change (count_action ARenderScene
              (log (ARequestReferenceSpace n) (log AAcquireHitTest w))
            = count_action ARenderScene w).
    by rewrite !count_action_log.
  - change (count_action ARenderScene (log AAcquireHitTest w)
            = count_action ARenderScene w).
    by rewrite count_action_log.
Qed.

Lemma getHitTestResults_keeps (f : XRFrame) (w : World) :
  globals (getHitTestResults f w).1 = globals w /\
  trace (getHitTestResults f w).1 = trace w /\
  (is_Some (reticle w) -> (getHitTestResults f w).2 = Normal).
Proof.
  unfold getHitTestResults.
  destruct (hitTestSource w); [|done].
  destruct (hitPoses f) as [|pose rest]; simpl;
    destruct (reticle w); simpl; repeat split; try done;
    intros [? [=]].
Qed.

(** The call [renderer.render(scene, camera)]: the callee and the first
    argument resolve, the second does not. *)
Lemma draw_call_faults (w : World) :
  "camera" ∉ globals w ->
  draw_call w = (w, Throw (ReferenceError "camera")).
Proof.
  intros H. unfold draw_call, then_, ident.
  rewrite (bound_local render_chain "renderer") by (vm_compute; reflexivity).
  rewrite (bound_local render_chain "scene") by (vm_compute; reflexivity).
  by rewrite camera_not_on_render_chain.
Qed.

Lemma render_frame_eq (timestamp : Z) (f : XRFrame) (w : World) :
  render timestamp (Some f) w
  = match getHitTestResults f
            (if negb (hitTestSourceRequested w)
             then requestHitTestSource w else w) with
    | (w2, Normal) => draw_call w2
    | (w2, Throw e) => (w2, Throw e)
    end.
Proof. unfold render, then_ at 1 2. by destruct (negb _). Qed.

Lemma render_idle_eq (timestamp : Z) (w : World) :
  render timestamp None w = draw_call w.
Proof. reflexivity. Qed.

(** C6. [camera] is a local of [initApp] and is bound nowhere on the
    scope chain of [render]; so, the host's global object having no
    [camera] property, every call of [render] throws and never reaches
    the draw call, and with the marker loaded what it throws is the
    reference error for [camera]. *)
Theorem render_faults_on_camera
    (w : World) (timestamp : Z) (frame : option XRFrame) :
  "camera" ∉ globals w ->
  "camera" ∈ initApp_scope /\
  bound render_chain "camera" w = false /\
  (exists e, (render timestamp frame w).2 = Throw e) /\
  count_action ARenderScene (render timestamp frame w).1
    = count_action ARenderScene w /\
  (is_Some (reticle w) ->
   (render timestamp frame w).2 = Throw (ReferenceError "camera")).
Proof.
  intros H.
  split; [unfold initApp_scope; repeat constructor|].
  split; [by apply camera_not_on_render_chain|].
  destruct frame as [f|].
  - rewrite render_frame_eq.
    set (w1 := if negb (hitTestSourceRequested w)
               then requestHitTestSource w else w).
    assert (Hg1 : globals w1 = globals w).
    { subst w1. destruct (negb _); [apply requestHitTestSource_globals|done]. }
    assert (Hr1 : reticle w1 = reticle w).
    { subst w1. destruct (negb _); [apply requestHitTestSource_reticle|done]. }
    assert (Hc1 : count_action ARenderScene w1 = count_action ARenderScene w).
    { subst w1. destruct (negb _); [apply requestHitTestSource_draws|done]. }
    destruct (getHitTestResults_keeps f w1) as (Hg2 & Ht2 & Hn2).
    destruct (getHitTestResults f w1) as [w2 c2] eqn:Hq. simpl in *.
    assert (Hcam : "camera" ∉ globals w2) by (rewrite Hg2, Hg1; exact H).
    assert (Hc2 : count_action ARenderScene w2 = count_action ARenderScene w).
    { unfold count_action in *. by rewrite Ht2. }
    destruct c2 as [|e].
    + rewrite (draw_call_faults w2 Hcam). simpl.
      repeat split; eauto.
    + simpl. repeat split; eauto.
      intros Hsome. rewrite <- Hr1 in Hsome. by specialize (Hn2 Hsome).
  - rewrite render_idle_eq.
    rewrite (draw_call_faults w H). simpl. repeat split; eauto.
Qed.

Lemma render_faults_on_camera_witness :
  (render 16 (Some (mkFrame [pose_at 1 0 2])) acquired).2
  = Throw (ReferenceError "camera").
Proof.
  refine (proj2 (proj2 (proj2 (proj2
            (render_faults_on_camera acquired 16
               (Some (mkFrame [pose_at 1 0 2])) _)))) _).
  - apply (bool_decide_unpack _). vm_compute. exact I.
  - vm_compute. eauto.
Defined.

(** ** The loaders *)

(** C7. When the fetch rejects, each of the three loaders catches the
    failure, logs it, and fulfils its own promise with [undefined]: no
    exception propagates and no error object is returned. *)
Theorem loaders_catch_and_log (w : World) (err : Error) :
  caught_and_logged err w (setEnvironment (Reject err) w) /\
  caught_and_logged err w (loadReticle (Reject err) w) /\
  caught_and_logged err w (loadChair (Reject err) w).
Proof.
  unfold caught_and_logged; simpl.
  repeat split; eauto; exact (World_eta w).
Qed.

(** ** initAR *)

(** C8. When the session request rejects, [initAR] does not handle it:
    its own promise is rejected with the same error, and since the click
    handler dropped that promise the rejection ends up unhandled; nothing
    is logged, no session and no activation changes. *)
Theorem session_request_rejection_unhandled
    (w : World) (pid cid : nat) (e : Error) :
  promises w !! pid = Some (PSession cid) ->
  initAR_resume cid (Reject e) (settle pid w) = (settle pid w, Reject e) /\
  unhandled (step w (ESessionRequest pid (Reject e)))
    = (unhandled w ++ [e])%list /\
  console (step w (ESessionRequest pid (Reject e))) = console w /\
  uncaught (step w (ESessionRequest pid (Reject e))) = uncaught w /\
  sessions (step w (ESessionRequest pid (Reject e))) = sessions w /\
  closures (step w (ESessionRequest pid (Reject e))) = closures w.
Proof.
  intros H. split; [reflexivity|].
  unfold step. rewrite H. simpl. done.
Qed.

Lemma session_request_rejection_unhandled_witness :
  unhandled (step requesting
               (ESessionRequest 1 (Reject (HostError "NotSupportedError"))))
  = (unhandled requesting ++ [HostError "NotSupportedError"])%list.
Proof.
  refine (proj1 (proj2 (session_request_rejection_unhandled requesting 1 0
                          (HostError "NotSupportedError") _))).
  reflexivity.
Defined.

(** ** What the session-end listeners leave alone *)

Lemma onSessionEnded_keeps (cid : nat) (w : World) :
  heap (onSessionEnded cid w) = heap w /\
  trace (onSessionEnded cid w) = trace w /\
  promises (onSessionEnded cid w) = promises w.
Proof.
  unfold onSessionEnded.
  destruct (closures w !! cid) as [cl|]; [|done].
  destruct (currentSession cl); [|done].
  by destruct (ar_chair cl).
Qed.

Lemma run_listener_keeps (s : nat) (w : World) (l : Listener) :
  heap (run_listener s w l) = heap w /\
  trace (run_listener s w l) = trace w /\
  promises (run_listener s w l) = promises w.
Proof.
  unfold run_listener. destruct (registered s l w); [|done].
  destruct l; [apply onSessionEnded_keeps | done].
Qed.

Lemma dispatch_keeps (s : nat) (ls : list Listener) (w : World) :
  heap (foldl (run_listener s) w ls) = heap w /\
  trace (foldl (run_listener s) w ls) = trace w /\
  promises (foldl (run_listener s) w ls) = promises w.
Proof.
  revert w. induction ls as [|l ls IH]; intros w; [done|].
  simpl. destruct (IH (run_listener s w l)) as (-> & -> & ->).
  apply run_listener_keeps.
Qed.

Lemma session_end_keeps (s : nat) (w : World) :
  heap (session_end s w) = heap w /\
  trace (session_end s w) = trace w /\
  promises (session_end s w) = promises w.
Proof.
  unfold session_end.
  destruct (sessions w !! s) as [ses|]; [|done].
  destruct (ended ses); [done|]. simpl. apply dispatch_keeps.
Qed.

(** Listeners of the second kind only reset the latch and the source. *)
Lemma dispatch_resets (s : nat) (rest : list Listener) (w : World) :
  Forall (eq HitTestReset) rest ->
  children (foldl (run_listener s) w rest) = children w /\
  closures (foldl (run_listener s) w rest) = closures w /\
  sessions (foldl (run_listener s) w rest) = sessions w /\
  animationLoop (foldl (run_listener s) w rest) = animationLoop w.
Proof.
  intros H. revert w. induction H as [|l rest <- _ IH]; intros w; [done|].
  simpl. destruct (IH (run_listener s w HitTestReset)) as (-> & -> & -> & ->).
  unfold run_listener. by destruct (registered s HitTestReset w).
Qed.

(** ** The scene graph has no duplicates *)

Lemma remove_child_subset (c d : nat) (cs : list nat) :
  d ∈ remove_child c cs -> d ∈ cs.
Proof.
  induction cs as [|e cs IH]; simpl; [done|].
  case_decide.
  - intros. by apply list_elem_of_further.
  - rewrite !elem_of_cons. intros [->|H']; auto.
Qed.

Lemma remove_child_NoDup (c : nat) (cs : list nat) :
  NoDup cs -> NoDup (remove_child c cs).
Proof.
  induction 1 as [|e cs Hin Hnd IH]; simpl; [constructor|].
  case_decide; [done|].
  constructor; [|done]. intros H'. apply Hin. by eapply remove_child_subset.
Qed.

Lemma remove_child_gone (c : nat) (cs : list nat) :
  NoDup cs -> c ∉ remove_child c cs.
Proof.
  induction 1 as [|e cs Hin Hnd IH]; simpl; [apply not_elem_of_nil|].
  case_decide; [by subst|].
  rewrite elem_of_cons. intros [->|H']; [done|by apply IH].
Qed.

Lemma add_child_NoDup (c : nat) (cs : list nat) :
  NoDup cs -> NoDup (add_child c cs).
Proof.
  intros H. unfold add_child. apply NoDup_app. split_and!.
  - by apply remove_child_NoDup.
  - intros d Hd ->%list_elem_of_singleton. by apply (remove_child_gone c cs).
  - apply NoDup_singleton.
Qed.

(** ** The lifecycle invariant *)

Lemma inv_transport (w w' : World) :
  children w' = children w ->
  closures w' = closures w ->
  sessions w' = sessions w ->
  (forall p cid, promises w' !! p = Some (PSession cid) ->
                 promises w !! p = Some (PSession cid)) ->
  lifecycle_inv w -> lifecycle_inv w'.
Proof.
  intros Hc Hcl Hs Hp [I1 I2 I3 I4]. split.
  - by rewrite Hc.
  - rewrite Hs, Hcl. exact I2.
  - intros pid cid H. rewrite Hcl. eauto.
  - intros p1 p2 cid H1 H2. eauto.
Qed.

Lemma settled_pending (ps : list Pending) (pid p cid : nat) :
  <[pid := PSettled]> ps !! p = Some (PSession cid) ->
  ps !! p = Some (PSession cid) /\ p <> pid.
Proof.
  intros H. apply list_lookup_insert_Some in H.
  destruct H as [(_ & [=] & _)|[? ?]]. by split.
Qed.

Lemma snoc_pending (ps : list Pending) (x : Pending) (p cid : nat) :
  (ps ++ [x]) !! p = Some (PSession cid) ->
  ps !! p = Some (PSession cid) \/ (p = length ps /\ x = PSession cid).
Proof.
  intros H. apply lookup_snoc_Some in H. destruct H as [[_ H]|[-> ->]]; auto.
Qed.

Lemma inv_init (gl : list string) (hdr : Settle nat) (gltf : Settle Object3D) :
  lifecycle_inv (initApp gl hdr gltf).
Proof.
  destruct hdr, gltf; split; simpl; try done; vm_compute;
    repeat (constructor; [rewrite ?elem_of_cons, ?elem_of_nil; lia|]);
    constructor.
Qed.

Lemma quiet_refl (w : World) : quiet w w.
Proof. by repeat split. Qed.

Lemma quiet_trans (w1 w2 w3 : World) : quiet w1 w2 -> quiet w2 w3 -> quiet w1 w3.
Proof.
  intros (A1 & A2 & A3 & A4) (B1 & B2 & B3 & B4).
  repeat split; try congruence. eauto.
Qed.

Lemma inv_quiet (w w' : World) : quiet w w' -> lifecycle_inv w -> lifecycle_inv w'.
Proof. intros (? & ? & ? & ?). by apply inv_transport. Qed.

Lemma quiet_new_promise (x : Pending) (w : World) :
  (forall cid, x <> PSession cid) -> quiet w (new_promise x w).
Proof.
  intros Hx. repeat split; simpl.
  intros p cid [H|[_ ->]]%snoc_pending; [done|]. by destruct (Hx cid).
Qed.

Lemma quiet_settle (pid : nat) (w : World) : quiet w (settle pid w).
Proof.
  repeat split; simpl. intros p cid H. by apply settled_pending in H as [? _].
Qed.

Lemma quiet_record (c : Completion) (w : World) : quiet w (record c w).
Proof. destruct c; by repeat split. Qed.

Lemma quiet_requestHitTestSource (w : World) : quiet w (requestHitTestSource w).
Proof.
  unfold requestHitTestSource. simpl.
  destruct (xrSession w) as [s|]; [|by repeat split].
  eapply quiet_trans; [|by apply quiet_new_promise]. by repeat split.
Qed.

Lemma quiet_getHitTestResults (f : XRFrame) (w : World) :
  quiet w (getHitTestResults f w).1.
Proof.
  unfold getHitTestResults.
  destruct (hitTestSource w); [|apply quiet_refl].
  destruct (hitPoses f); simpl; destruct (reticle w); by repeat split.
Qed.

Lemma quiet_draw_call (w : World) : quiet w (draw_call w).1.
Proof.
  unfold draw_call, then_, ident, exec.
  repeat (destruct (bound _ _ _); [|apply quiet_refl]). by repeat split.
Qed.

Lemma quiet_render (timestamp : Z) (frame : option XRFrame) (w : World) :
  quiet w (render timestamp frame w).1.
Proof.
  destruct frame as [f|]; [|rewrite render_idle_eq; apply quiet_draw_call].
  rewrite render_frame_eq.
  set (w1 := if negb _ then _ else _).
  assert (H1 : quiet w w1).
  { subst w1. destruct (negb _);
      [apply quiet_requestHitTestSource | apply quiet_refl]. }
  pose proof (quiet_getHitTestResults f w1) as H2.
  destruct (getHitTestResults f w1) as [w2 [|e]]; simpl in H2.
  - eapply quiet_trans; [|apply quiet_draw_call]. by eapply quiet_trans.
  - by eapply quiet_trans.
Qed.

Lemma quiet_onSelect (w : World) : quiet w (onSelect w).1.
Proof.
  unfold onSelect.
  destruct (chair w); [|apply quiet_refl].
  destruct (reticle w) as [r|]; [|apply quiet_refl].
  destruct (heap w !! r) as [R|]; [|apply quiet_refl].
  destruct (visible R); [by repeat split | apply quiet_refl].
Qed.

Lemma quiet_requestHitTestSource_space (s : nat) (r : Settle unit) (w : World) :
  quiet w (requestHitTestSource_space s r w).
Proof.
  destruct r; simpl; [|by repeat split].
  eapply quiet_trans; [|by apply quiet_new_promise]. by repeat split.
Qed.

Lemma inv_set_children (cs : list nat) (w : World) :
  NoDup cs -> lifecycle_inv w -> lifecycle_inv (set_children cs w).
Proof. intros H [I1 I2 I3 I4]. by split. Qed.

Lemma inv_loadChair (fetch : Settle Object3D) (w : World) :
  lifecycle_inv w -> lifecycle_inv (loadChair fetch w).1.
Proof.
  intros I. destruct fetch as [o|e]; simpl.
  - apply inv_set_children.
    + apply add_child_NoDup, I.
    + eapply inv_quiet; [|exact I]. by repeat split.
  - eapply inv_quiet; [|exact I]. by repeat split.
Qed.

Lemma lookup_snoc_last {A} (l : list A) (x : A) : (l ++ [x]) !! length l = Some x.
Proof. by apply list_lookup_middle. Qed.

Lemma inv_initAR (c : option nat) (w : World) :
  lifecycle_inv w -> lifecycle_inv (initAR c w).
Proof.
  intros [I1 I2 I3 I4]. unfold initAR; simpl. split; simpl.
  - exact I1.
  - intros s ses Hs He. destruct (I2 s ses Hs He) as (cid & rest & cl & ? & ? & ? & ?).
    exists cid, rest, cl. split_and!; try done. by apply lookup_app_l_Some.
  - intros pid cid [H|[_ [= <-]]]%snoc_pending.
    + destruct (I3 pid cid H) as (cl & ? & ?).
      exists cl. split; [by apply lookup_app_l_Some|done].
    + eexists. split; [apply lookup_snoc_last|done].
  - intros p1 p2 cid [H1|[-> [= <-]]]%snoc_pending [H2|[-> E2]]%snoc_pending.
    + eauto.
    + injection E2 as <-. destruct (I3 p1 _ H1) as (cl & Hcl%lookup_lt_Some & _). lia.
    + destruct (I3 p2 _ H2) as (cl & Hcl%lookup_lt_Some & _). lia.
    + done.
Qed.

Lemma inv_onClick_resume (fetch : Settle Object3D) (w : World) :
  lifecycle_inv w -> lifecycle_inv (onClick_resume fetch w).
Proof.
  intros I. unfold onClick_resume.
  pose proof (inv_loadChair fetch w I) as I'.
  destruct (loadChair fetch w) as [wl [chair|e]] eqn:Hl; simpl in I'.
  - unfold setAnimationLoop, setChair.
    eapply inv_quiet with (w := initAR chair (set_chair chair wl));
      [by repeat split|].
    apply inv_initAR. eapply inv_quiet; [|exact I']. by repeat split.
  - eapply inv_quiet; [|exact I']. by repeat split.
Qed.

Lemma inv_session_started (cid : nat) (w : World) :
  lifecycle_inv w ->
  (exists cl, closures w !! cid = Some cl /\ currentSession cl = None) ->
  (forall p, promises w !! p <> Some (PSession cid)) ->
  lifecycle_inv (onSessionStarted cid (length (sessions w)) (new_session w).2).
Proof.
  intros [I1 I2 I3 I4] (cl0 & Hcl0 & Hnone) Hfree.
  unfold onSessionStarted, new_session, addEventListener, set_currentSession.
  simpl. split; simpl.
  - exact I1.
  - intros s ses Hs He.
    destruct (decide (s = length (sessions w))) as [->|Hne].
    + rewrite list_lookup_alter_eq, lookup_snoc_last in Hs.
      injection Hs as <-. simpl.
      exists cid, [], (mkAR (Some (length (sessions w))) (ar_chair cl0)).
      split_and!; try done.
      by rewrite list_lookup_alter_eq, Hcl0.
    + rewrite list_lookup_alter_ne in Hs by done.
      apply lookup_snoc_Some in Hs as [[_ Hs]|[? _]]; [|done].
      destruct (I2 s ses Hs He) as (cid' & rest & cl & ? & ? & Hcl & Hcur).
      exists cid', rest, cl. split_and!; try done.
      rewrite list_lookup_alter_ne; [done|].
      intros <-. congruence.
  - intros pid cid' H.
    destruct (I3 pid cid' H) as (cl & Hcl & ?).
    exists cl. split; [|done].
    rewrite list_lookup_alter_ne; [done|].
    intros <-. by apply (Hfree pid).
  - exact I4.
Qed.

Lemma inv_hit_source (s src : nat) (w : World) :
  lifecycle_inv w ->
  lifecycle_inv (requestHitTestSource_source s (Fulfil src) w).
Proof.
  intros [I1 I2 I3 I4]. unfold requestHitTestSource_source, addEventListener.
  simpl. split; simpl; try done.
  intros s' ses Hs He.
  destruct (decide (s = s')) as [<-|Hne].
  - rewrite list_lookup_alter_eq in Hs.
    destruct (sessions w !! s) as [ses0|] eqn:H0; [|done].
    injection Hs as <-. simpl in *.
    destruct (I2 s ses0 H0 He) as (cid & rest & cl & Hl & ? & ? & ?).
    exists cid, (rest ++ [HitTestReset]), cl. split_and!; try done.
    + by rewrite Hl.
    + apply Forall_app. split; [done|]. by constructor.
  - rewrite list_lookup_alter_ne in Hs by done. eauto.
Qed.

(** Under the invariant, the end of a live session [s] runs the
    [onSessionEnded] of the activation that holds [s], and what the other
    listeners do afterwards touches neither scene graph, activations nor
    animation loop. *)
Lemma session_end_live (s : nat) (ses : Session) (w : World) :
  lifecycle_inv w ->
  sessions w !! s = Some ses -> ended ses = false ->
  exists cid cl,
    closures w !! cid = Some cl /\ currentSession cl = Some s /\
    children (session_end s w) = children (onSessionEnded cid w) /\
    closures (session_end s w) = closures (onSessionEnded cid w) /\
    animationLoop (session_end s w) = animationLoop (onSessionEnded cid w) /\
    sessions (session_end s w)
    = alter (fun ses => mkSession (listeners ses) true) s
        (sessions (onSessionEnded cid w)).
Proof.
  intros I Hs He.
  destruct (inv_sessions w I s ses Hs He) as (cid & rest & cl & Hl & Hrest & Hcl & Hcur).
  exists cid, cl. split; [done|]. split; [done|].
  unfold session_end. rewrite Hs, He, Hl. simpl.
  assert (Hrun : run_listener s w (OnSessionEnded cid) = onSessionEnded cid w).
  { unfold run_listener, registered. rewrite Hs, Hl.
    rewrite bool_decide_eq_true_2; [done|]. apply list_elem_of_here. }
  rewrite Hrun.
  by destruct (dispatch_resets s rest (onSessionEnded cid w) Hrest)
    as (-> & -> & -> & ->).
Qed.

Lemma onSessionEnded_held (cid s : nat) (cl : ARClosure) (w : World) :
  closures w !! cid = Some cl -> currentSession cl = Some s ->
  children (onSessionEnded cid w)
  = match ar_chair cl with
    | Some c => remove_child c (children w)
    | None => children w
    end /\
  closures (onSessionEnded cid w)
  = alter (fun _ => mkAR None None) cid (closures w) /\
  animationLoop (onSessionEnded cid w) = None /\
  sessions (onSessionEnded cid w)
  = alter (fun ses => mkSession
                        (filter (fun l => l <> OnSessionEnded cid) (listeners ses))
                        (ended ses)) s (sessions w).
Proof.
  intros Hcl Hcur. unfold onSessionEnded. rewrite Hcl, Hcur.
  destruct cl as [cur [c|]]; simpl in *; subst cur; split_and!; try done.
  - unfold set_ar_chair, set_currentSession; simpl.
    rewrite list_alter_alter_eq. by apply list_alter_ext.
  - unfold set_currentSession; simpl.
    apply list_alter_ext; [|done]. intros cl' Hcl'.
    rewrite Hcl in Hcl'. by injection Hcl' as <-.
Qed.

Lemma inv_session_end (s : nat) (w : World) :
  lifecycle_inv w -> lifecycle_inv (session_end s w).
Proof.
  intros I.
  destruct (sessions w !! s) as [ses|] eqn:Hs;
    [|unfold session_end; by rewrite Hs].
  destruct (ended ses) eqn:He; [unfold session_end; by rewrite Hs, He|].
  destruct (session_end_live s ses w I Hs He)
    as (cid & cl & Hcl & Hcur & Ech & Ecl & _ & Ese).
  destruct (onSessionEnded_held cid s cl w Hcl Hcur) as (Ech' & Ecl' & _ & Ese').
  destruct (session_end_keeps s w) as (_ & _ & Epr).
  destruct I as [I1 I2 I3 I4]. split.
  - rewrite Ech, Ech'. destruct (ar_chair cl); [by apply remove_child_NoDup|done].
  - intros s' ses' Hs' He'. rewrite Ese, Ese' in Hs'.
    destruct (decide (s = s')) as [<-|Hne].
    + rewrite !list_lookup_alter_eq, Hs in Hs'. by injection Hs' as <-.
    + rewrite !list_lookup_alter_ne in Hs' by done.
      destruct (I2 s' ses' Hs' He') as (cid' & rest & cl' & ? & ? & Hcl' & Hcur').
      exists cid', rest, cl'. split_and!; try done.
      rewrite Ecl, Ecl', list_lookup_alter_ne; [done|].
      intros <-. congruence.
  - intros pid cid' H. rewrite Epr in H.
    destruct (I3 pid cid' H) as (cl' & Hcl' & Hcur').
    exists cl'. split; [|done].
    rewrite Ecl, Ecl', list_lookup_alter_ne; [done|].
    intros <-. congruence.
  - rewrite Epr. exact I4.
Qed.

Lemma inv_step (w : World) (ev : Event) :
  lifecycle_inv w -> lifecycle_inv (step w ev).
Proof.
  intros I. destruct ev as [id|pid r|pid r|pid r|pid r|ts f| |s]; simpl.
  - eapply inv_quiet; [|exact I]. by apply quiet_new_promise.
  - destruct (promises w !! pid) as [[]|]; try done.
    apply inv_onClick_resume. eapply inv_quiet; [apply quiet_settle|done].
  - destruct (promises w !! pid) as [[| cid | | |]|] eqn:Hp; try done.
    assert (I' : lifecycle_inv (settle pid w))
      by (eapply inv_quiet; [apply quiet_settle|done]).
    destruct r as [[]|e]; simpl.
    + apply (inv_session_started cid (settle pid w) I').
      * exact (inv_pending w I pid cid Hp).
      * intros p [Hp' Hne]%settled_pending.
        apply Hne. exact (inv_unique w I p pid cid Hp' Hp).
    + eapply inv_quiet; [|exact I']. by repeat split.
  - destruct (promises w !! pid) as [[]|]; try done.
    eapply inv_quiet; [|exact I].
    eapply quiet_trans; [apply quiet_settle|apply quiet_requestHitTestSource_space].
  - destruct (promises w !! pid) as [[]|]; try done.
    assert (I' : lifecycle_inv (settle pid w))
      by (eapply inv_quiet; [apply quiet_settle|done]).
    destruct r as [src|e]; [by apply inv_hit_source|].
    eapply inv_quiet; [|exact I']. by repeat split.
  - destruct (animationLoop w) as [[]|]; [|done].
    pose proof (quiet_render ts f w) as Hq.
    destruct (render ts f w) as [w' c]. simpl in Hq.
    eapply inv_quiet; [|exact I]. eapply quiet_trans; [exact Hq|apply quiet_record].
  - pose proof (quiet_onSelect w) as Hq.
    destruct (onSelect w) as [w' c]. simpl in Hq.
    eapply inv_quiet; [|exact I]. eapply quiet_trans; [exact Hq|apply quiet_record].
  - by apply inv_session_end.
Qed.

Lemma reachable_inv (w : World) : reachable w -> lifecycle_inv w.
Proof. induction 1; [apply inv_init | by apply inv_step]. Qed.

Lemma reachable_run (w : World) (evs : list Event) :
  reachable w -> reachable (run w evs).
Proof.
  revert w. induction evs as [|ev evs IH]; intros w H; [done|].
  simpl. apply IH. by constructor.
Qed.

Lemma booted_reachable : reachable booted.
Proof. constructor. Qed.

(** ** onSessionEnded *)

(** What [onSessionEnded] achieves. Whenever a live session ends, in
    any world the program can reach, the ['end'] event runs
    [onSessionEnded] of the activation that holds the session, and
    afterwards that activation's session reference (and object
    reference) is cleared, the object it was started for - the argument
    of that call of [initAR] - is no longer among the scene's children,
    and the animation loop is unset. *)
Theorem session_end_postconditions (w : World) (s : nat) :
  reachable w ->
  session_active s w = true ->
  exists cid cl,
    closures w !! cid = Some cl /\
    currentSession cl = Some s /\
    closures (step w (ESessionEnd s)) !! cid = Some (mkAR None None) /\
    (forall c, ar_chair cl = Some c -> c ∉ children (step w (ESessionEnd s))) /\
    animationLoop (step w (ESessionEnd s)) = None.
Proof.
  intros Hreach Hact. pose proof (reachable_inv w Hreach) as I.
  unfold session_active in Hact.
  destruct (sessions w !! s) as [ses|] eqn:Hs; [|done].
  apply negb_true_iff in Hact.
  destruct (session_end_live s ses w I Hs Hact)
    as (cid & cl & Hcl & Hcur & Ech & Ecl & Ean & _).
  destruct (onSessionEnded_held cid s cl w Hcl Hcur) as (Ech' & Ecl' & Ean' & _).
  exists cid, cl. simpl. split_and!; try done.
  - by rewrite Ecl, Ecl', list_lookup_alter_eq, Hcl.
  - intros c Hc. rewrite Ech, Ech', Hc.
    apply remove_child_gone, I.
  - by rewrite Ean.
Qed.

Lemma session_end_postconditions_witness :
  exists cid cl,
    closures tracking !! cid = Some cl /\
    currentSession cl = Some 0 /\
    closures (step tracking (ESessionEnd 0)) !! cid = Some (mkAR None None) /\
    (forall c, ar_chair cl = Some c ->
               c ∉ children (step tracking (ESessionEnd 0))) /\
    animationLoop (step tracking (ESessionEnd 0)) = None.
Proof.
  apply (session_end_postconditions tracking 0).
  - exact (reachable_run booted tracking_trace booted_reachable).
  - reflexivity.
Defined.

(** C3 at the failing input. [onSessionEnded] removes the [chair] its
    own call of [initAR] was given (line 149), not the object [setupXR]
    holds and [onSelect] places (lines 76, 80, 207). After a second click
    during session 0 the two differ: when session 0, the only one, ends,
    the first model (3) leaves the scene and the second (4) stays - also
    (second part, on a host where frames keep coming) when it is the
    second model that has been placed and is visible. *)
Theorem session_end_leaves_placed_object :
  (active_sessions clicked_again = [0] /\
   closures clicked_again = [mkAR (Some 0) (Some 3); mkAR None (Some 4)] /\
   chair clicked_again = Some 4 /\
   active_sessions (step clicked_again (ESessionEnd 0)) = [] /\
   animationLoop (step clicked_again (ESessionEnd 0)) = None /\
   chair (step clicked_again (ESessionEnd 0)) = Some 4 /\
   children (step clicked_again (ESessionEnd 0)) = [0; 1; 2; 4]) /\
  (uncaught second_placed = [] /\
   active_sessions second_placed = [0] /\
   chair second_placed = Some 4 /\
   (position <$> heap second_placed !! 4)
     = Some (pose_position (pose_at 1 0 2)) /\
   (visible <$> heap second_placed !! 4) = Some true /\
   active_sessions (step second_placed (ESessionEnd 0)) = [] /\
   children (step second_placed (ESessionEnd 0)) = [0; 1; 2; 4] /\
   (visible <$> heap (step second_placed (ESessionEnd 0)) !! 4) = Some true).
Proof. vm_compute. done. Qed.

(** ** Where positions change *)

Lemma pos_kept_refl (h : list Object3D) : pos_kept h h.
Proof. intros o O H. eauto. Qed.

Lemma pos_kept_trans (h1 h2 h3 : list Object3D) :
  pos_kept h1 h2 -> pos_kept h2 h3 -> pos_kept h1 h3.
Proof.
  intros H12 H23 o O H. destruct (H12 o O H) as (O2 & H2 & E2).
  destruct (H23 o O2 H2) as (O3 & H3 & E3). exists O3. split; congruence.
Qed.

Lemma pos_kept_alter (f : Object3D -> Object3D) (c : nat) (h : list Object3D) :
  (forall O, position (f O) = position O) -> pos_kept h (alter f c h).
Proof.
  intros Hf o O H. destruct (decide (c = o)) as [->|Hne].
  - exists (f O). split; [by apply lookup_alter_same | apply Hf].
  - exists O. split; [by rewrite lookup_alter_other | done].
Qed.

Lemma pos_kept_snoc (O : Object3D) (h : list Object3D) : pos_kept h (h ++ [O]).
Proof. intros o O' H. exists O'. split; [by apply lookup_app_l_Some | done]. Qed.

Lemma pos_kept_getHitTestResults (f : XRFrame) (w : World) :
  pos_kept (heap w) (heap (getHitTestResults f w).1).
Proof.
  unfold getHitTestResults.
  destruct (hitTestSource w); [|apply pos_kept_refl].
  destruct (hitPoses f); simpl; destruct (reticle w); simpl;
    try apply pos_kept_refl.
  - by apply pos_kept_alter.
  - eapply pos_kept_trans; by apply pos_kept_alter.
Qed.

Lemma requestHitTestSource_heap (w : World) :
  heap (requestHitTestSource w) = heap w.
Proof. unfold requestHitTestSource. simpl. by destruct (xrSession w). Qed.

Lemma draw_call_heap (w : World) : heap (draw_call w).1 = heap w.
Proof.
  unfold draw_call, then_, ident, exec.
  by repeat (destruct (bound _ _ _); [|done]).
Qed.

Lemma pos_kept_render (timestamp : Z) (frame : option XRFrame) (w : World) :
  pos_kept (heap w) (heap (render timestamp frame w).1).
Proof.
  destruct frame as [f|];
    [|rewrite render_idle_eq, draw_call_heap; apply pos_kept_refl].
  rewrite render_frame_eq.
  set (w1 := if negb _ then _ else _).
  assert (H1 : heap w1 = heap w).
  { subst w1. destruct (negb _); [apply requestHitTestSource_heap|done]. }
  pose proof (pos_kept_getHitTestResults f w1) as H2. rewrite H1 in H2.
  destruct (getHitTestResults f w1) as [w2 [|e]]; simpl in H2; [|done].
  by rewrite draw_call_heap.
Qed.

Lemma pos_kept_onClick_resume (fetch : Settle Object3D) (w : World) :
  pos_kept (heap w) (heap (onClick_resume fetch w)).
Proof.
  destruct fetch as [O|e]; simpl; [|apply pos_kept_refl].
  eapply pos_kept_trans; [apply pos_kept_snoc|by apply pos_kept_alter].
Qed.

Lemma record_heap (c : Completion) (w : World) : heap (record c w) = heap w.
Proof. by destruct c. Qed.

Lemma booted_cam_reachable : reachable booted_cam.
Proof. constructor. Qed.

(** C9, as stated, fails. On a host where frames keep coming and no
    callback throws: the object was placed at (1, 0, 2) by a first
    selection and is in the scene; the marker has since moved; a second
    selection moves the placed object to (5, 0, 5). *)
Lemma pose_assigned_once_fails : ~ pose_assigned_once.
Proof.
  intros H.
  pose (C := set_visible true
               (set_position (setFromMatrixPosition (pose_at 1 0 2))
                  (set_visible false sample_gltf))).
  pose (C' := set_visible true
                (set_position (setFromMatrixPosition (pose_at 5 0 5)) C)).
  assert (Hreach : reachable placed_then_moved).
  { unfold placed_then_moved, tracking_cam.
    do 2 apply reachable_run. apply booted_cam_reachable. }
  assert (Hin : 3 ∈ children placed_then_moved).
  { apply (bool_decide_unpack _). vm_compute. exact I. }
  specialize (H placed_then_moved ESelect 3 C C' Hreach
                eq_refl eq_refl eq_refl eq_refl Hin eq_refl).
  vm_compute in H. discriminate H.
Qed.

(** C9, amended. While the placeable object is in the scene, its pose is
    assigned at every selection that meets the placement preconditions -
    not only at the first - each time to the translation of the marker's
    current matrix; and no other event updates it: not a selection that
    fails the preconditions, nor a frame, a click, a fetch, a session
    start or end, or a promise settlement. *)
Theorem pose_assigned_at_every_selection
    (w : World) (ev : Event) (c : nat) (C : Object3D) :
  chair w = Some c ->
  heap w !! c = Some C ->
  c ∈ children w ->
  (ev = ESelect -> marker_visible w = true ->
   exists r R C',
     reticle w = Some r /\ heap w !! r = Some R /\
     heap (step w ev) !! c = Some C' /\
     position C' = setFromMatrixPosition (matrix R)) /\
  (ev <> ESelect \/ marker_visible w = false ->
   exists C', heap (step w ev) !! c = Some C' /\ position C' = position C).
Proof.
  intros Hc HC _. split.
  - intros -> Hv. unfold marker_visible in Hv.
    destruct (reticle w) as [r|] eqn:Hr; [|done].
    destruct (heap w !! r) as [R|] eqn:HR; [|done].
    exists r, R,
      (set_visible true (set_position (setFromMatrixPosition (matrix R)) C)).
    simpl. unfold onSelect. rewrite Hc, Hr, HR, Hv. simpl.
    split_and!; try done.
    apply lookup_alter_same. by apply lookup_alter_same.
  - intros Hor.
    assert (Hkept : forall w', pos_kept (heap w) (heap w') ->
              exists C', heap w' !! c = Some C' /\ position C' = position C)
      by (intros w' Hk; exact (Hk c C HC)).
    assert (Hsame : forall w', heap w' = heap w -> pos_kept (heap w) (heap w'))
      by (intros w' ->; apply pos_kept_refl).
    destruct ev as [id|pid r|pid r|pid r|pid r|ts f| |s]; simpl.
    + by apply Hkept, Hsame.
    + apply Hkept. destruct (promises w !! pid) as [[]|]; try by apply Hsame.
      apply (pos_kept_onClick_resume r (settle pid w)).
    + apply Hkept, Hsame. destruct (promises w !! pid) as [[]|]; try done.
      by destruct r as [[]|e].
    + apply Hkept, Hsame. destruct (promises w !! pid) as [[]|]; try done.
      by destruct r.
    + apply Hkept, Hsame. destruct (promises w !! pid) as [[]|]; try done.
      by destruct r.
    + apply Hkept. destruct (animationLoop w) as [[]|]; [|by apply Hsame].
      pose proof (pos_kept_render ts f w) as Hr.
      destruct (render ts f w) as [w' c']. by rewrite record_heap.
    + destruct Hor as [Hne|Hv]; [done|].
      assert (E : exists out, onSelect w = (w, out)).
      { unfold marker_visible in Hv. unfold onSelect. rewrite Hc.
        destruct (reticle w) as [r|]; [|eauto].
        destruct (heap w !! r) as [R|]; [|eauto]. rewrite Hv. eauto. }
      destruct E as [out ->]. rewrite record_heap. eauto.
    + apply Hkept, Hsame. apply session_end_keeps.
Qed.

Lemma pose_assigned_at_every_selection_witness :
  exists r R C',
    reticle placed_then_moved = Some r /\
    heap placed_then_moved !! r = Some R /\
    heap (step placed_then_moved ESelect) !! 3 = Some C' /\
    position C' = setFromMatrixPosition (matrix R).
Proof.
  refine (proj1 (pose_assigned_at_every_selection placed_then_moved ESelect 3
                   (set_visible true
                      (set_position (setFromMatrixPosition (pose_at 1 0 2))
                         (set_visible false sample_gltf)))
                   _ _ _) _ _); try reflexivity.
  apply (bool_decide_unpack _). vm_compute. exact I.
Defined.

(** ** The toggle of initAR *)

(** Whatever the world, a call of [initAR] tests its own, just
    initialised [currentSession]: it asks for a session and never ends
    one. *)
Lemma initAR_always_requests (c : option nat) (w : World) :
  trace (initAR c w) = trace w ++ [ARequestSession] /\
  promises (initAR c w) = promises w ++ [PSession (length (closures w))] /\
  sessions (initAR c w) = sessions w.
Proof. done. Qed.

Lemma count_snoc (a b : Action) (l : list Action) :
  a <> b ->
  length (filter (fun x => x = a) (l ++ [b])) = length (filter (fun x => x = a) l).
Proof.
  intros H. rewrite filter_app, length_app, filter_cons, filter_nil.
  case_decide; [congruence | simpl; lia].
Qed.

Lemma render_ends_nothing (timestamp : Z) (frame : option XRFrame)
    (s : nat) (w : World) :
  count_action (AEndSession s) (render timestamp frame w).1
  = count_action (AEndSession s) w.
Proof.
  assert (Hd : forall w', count_action (AEndSession s) (draw_call w').1
                          = count_action (AEndSession s) w').
  { intros w'. unfold draw_call, then_, ident, exec.
    repeat (destruct (bound _ _ _); [|done]). by apply count_action_log. }
  destruct frame as [f|]; [|by rewrite render_idle_eq].
  rewrite render_frame_eq.
  set (w1 := if negb _ then _ else _).
  assert (H1 : count_action (AEndSession s) w1 = count_action (AEndSession s) w).
  { subst w1. destruct (negb _); [|done].
    unfold requestHitTestSource, count_action. simpl.
    destruct (xrSession w); simpl; by rewrite !count_snoc. }
  destruct (getHitTestResults_keeps f w1) as (_ & Ht & _).
  destruct (getHitTestResults f w1) as [w2 [|e]]; simpl in *.
  - rewrite Hd. unfold count_action in *. by rewrite Ht.
  - unfold count_action in *. by rewrite Ht.
Qed.

Lemma step_ends_nothing (w : World) (ev : Event) (s : nat) :
  count_action (AEndSession s) (step w ev) = count_action (AEndSession s) w.
Proof.
  destruct ev as [id|pid r|pid r|pid r|pid r|ts f| |s']; simpl.
  - done.
  - destruct (promises w !! pid) as [[]|]; try done.
    destruct r; unfold count_action; simpl; by rewrite count_snoc.
  - destruct (promises w !! pid) as [[]|]; try done. by destruct r as [[]|].
  - destruct (promises w !! pid) as [[]|]; try done.
    destruct r; unfold count_action; simpl; [by rewrite count_snoc|done].
  - destruct (promises w !! pid) as [[]|]; try done. by destruct r.
  - destruct (animationLoop w) as [[]|]; [|done].
    pose proof (render_ends_nothing ts f s w) as Hr.
    destruct (render ts f w) as [w' [|e]]; simpl in *; exact Hr.
  - pose proof (onSelect_heap_only w) as Hw.
    destruct (onSelect w) as [w' c]; simpl in *.
    apply (f_equal trace) in Hw. simpl in Hw.
    unfold count_action. destruct c; simpl; by rewrite Hw.
  - unfold count_action. by destruct (session_end_keeps s' w) as (_ & -> & _).
Qed.

(** In no world the program reaches has it asked a session to end: the
    second branch of the test at line 177 is dead. *)
Lemma end_never_called (w : World) (s : nat) :
  reachable w -> count_action (AEndSession s) w = 0.
Proof.
  induction 1 as [gl hdr gltf|w ev _ IH].
  - by destruct hdr, gltf.
  - by rewrite step_ends_nothing.
Qed.

(** C1 at the failing input: session 0 is running and held by the first
    activation; a second click makes a second request and ends nothing;
    should the host grant it, two sessions are live. *)
Theorem second_click_requests_again :
  active_sessions in_session = [0] /\
  closures in_session = [mkAR (Some 0) (Some 3)] /\
  trace clicked_again = [ARequestSession; ARequestSession] /\
  promises clicked_again !! 3 = Some (PSession 1) /\
  active_sessions clicked_again = [0] /\
  active_sessions (step clicked_again (ESessionRequest 3 (Fulfil tt))) = [0; 1].
Proof. vm_compute. done. Qed.

(** ** The latch of render *)

(** Once the latch is set, a frame acquires nothing. *)
Lemma render_latched (timestamp : Z) (frame : option XRFrame) (w : World) :
  hitTestSourceRequested w = true ->
  count_action AAcquireHitTest (render timestamp frame w).1
  = count_action AAcquireHitTest w.
Proof.
  intros H.
  assert (Hd : forall w', count_action AAcquireHitTest (draw_call w').1
                          = count_action AAcquireHitTest w').
  { intros w'. unfold draw_call, then_, ident, exec.
    repeat (destruct (bound _ _ _); [|done]). by apply count_action_log. }
  destruct frame as [f|]; [|by rewrite render_idle_eq].
  rewrite render_frame_eq, H. simpl.
  destruct (getHitTestResults_keeps f w) as (_ & Ht & _).
  destruct (getHitTestResults f w) as [w2 [|e]]; simpl in *.
  - rewrite Hd. unfold count_action. by rewrite Ht.
  - unfold count_action. by rewrite Ht.
Qed.

(** While the latch is unset, every frame calls requestHitTestSource. *)
Lemma frame_while_waiting (timestamp : Z) (f : XRFrame) (w : World) :
  waiting w ->
  waiting (step w (EFrame timestamp (Some f))) /\
  count_action AAcquireHitTest (step w (EFrame timestamp (Some f)))
  = S (count_action AAcquireHitTest w).
Proof.
  intros (Hloop & Hlatch & Hsrc). simpl. rewrite Hloop.
  rewrite render_frame_eq, Hlatch. simpl.
  set (w1 := requestHitTestSource w).
  assert (H1 : waiting w1 /\
               count_action AAcquireHitTest w1
               = S (count_action AAcquireHitTest w)).
  { subst w1. unfold requestHitTestSource, waiting, count_action. simpl.
    destruct (xrSession w); simpl; split; try done.
    - rewrite count_snoc by congruence.
      rewrite filter_app, length_app. simpl. lia.
    - rewrite filter_app, length_app. simpl. lia. }
  destruct H1 as ((Hloop1 & Hlatch1 & Hsrc1) & Hcount1).
  assert (Hq : getHitTestResults f w1 = (w1, Normal))
    by (unfold getHitTestResults; by rewrite Hsrc1).
  rewrite Hq. unfold draw_call, then_, ident, exec.
  repeat (destruct (bound _ _ _);
          [|simpl; split; [by repeat split | exact Hcount1]]).
  simpl. split; [by repeat split|].
  rewrite <- Hcount1. by apply count_action_log.
Qed.

(** So the number of acquisitions within one session has no bound but
    the number of frames rendered before the source arrives. *)
Lemma acquisitions_grow_with_frames (n : nat) (f : XRFrame) (w : World) :
  waiting w ->
  count_action AAcquireHitTest (run w (replicate n (EFrame 0 (Some f))))
  = n + count_action AAcquireHitTest w.
Proof.
  revert w. induction n as [|n IH]; intros w Hw; [done|].
  change (run w (replicate (S n) (EFrame 0 (Some f))))
    with (run (step w (EFrame 0 (Some f))) (replicate n (EFrame 0 (Some f)))).
  destruct (frame_while_waiting 0 f w Hw) as (Hw' & Hc).
  rewrite (IH _ Hw'), Hc. lia.
Qed.

(** C2 at the failing input, on a host where line 126 does not throw
    (so that every frame callback returns and the next frame is asked
    for): the latch is set only when the second [await] of
    requestHitTestSource has returned, so a frame rendered while the
    first call still waits for its hit-test source finds the latch unset.
    No callback has thrown, both frames reached the draw call, the
    function has run twice within session 0, and the host is asked for a
    hit-test source twice. *)
Theorem hit_test_source_requested_twice :
  uncaught two_frames = [] /\
  count_action ARenderScene two_frames = 2 /\
  active_sessions two_frames = [0] /\
  hitTestSourceRequested two_frames = false /\
  count_action AAcquireHitTest two_frames = 2 /\
  count_action (ARequestHitTestSource 0)
    (step two_frames (EReferenceSpace 4 (Fulfil tt))) = 2.
Proof. vm_compute. done. Qed.

(** ** When the marker failed to load

    [loadReticle] then returned [undefined], which [setupXR] closes over
    unchecked: the guard of [onSelect] faults once an object is set, and
    so does a hit-test query; neither changes the world. *)

Lemma onSelect_without_marker (w : World) (c : nat) :
  chair w = Some c -> reticle w = None ->
  onSelect w = (w, Throw (TypeError "reticle.visible")).
Proof. intros Hc Hr. unfold onSelect. by rewrite Hc, Hr. Qed.

Lemma getHitTestResults_without_marker (f : XRFrame) (w : World) (src : nat) :
  hitTestSource w = Some src -> reticle w = None ->
  getHitTestResults f w = (w, Throw (TypeError "reticle.visible")).
Proof.
  intros Hs Hr. unfold getHitTestResults. rewrite Hs, Hr.
  by destruct (hitPoses f).
Qed.

(** * Further properties of the placement loop and the lifecycle *)

(** ** What a frame leaves alone *)

Lemma same_controls_refl (w : World) : same_controls w w.
Proof. by repeat split. Qed.

Lemma same_controls_trans (w1 w2 w3 : World) :
  same_controls w1 w2 -> same_controls w2 w3 -> same_controls w1 w3.
Proof.
  intros (A1 & A2 & A3 & A4 & A5 & A6) (B1 & B2 & B3 & B4 & B5 & B6).
  repeat split; congruence.
Qed.

Lemma controls_requestHitTestSource (w : World) :
  same_controls w (requestHitTestSource w).
Proof.
  unfold requestHitTestSource. simpl. destruct (xrSession w); by repeat split.
Qed.

Lemma controls_getHitTestResults (f : XRFrame) (w : World) :
  same_controls w (getHitTestResults f w).1.
Proof.
  unfold getHitTestResults.
  destruct (hitTestSource w) eqn:Hs; [|apply same_controls_refl].
  destruct (hitPoses f); simpl; destruct (reticle w) eqn:Hr; simpl;
    by repeat split.
Qed.

Lemma controls_draw_call (w : World) : same_controls w (draw_call w).1.
Proof.
  unfold draw_call, then_, ident, exec.
  repeat (destruct (bound _ _ _); [|apply same_controls_refl]).
  by repeat split.
Qed.

Lemma controls_record (c : Completion) (w : World) :
  same_controls w (record c w).
Proof. destruct c; by repeat split. Qed.

Lemma controls_render (timestamp : Z) (frame : option XRFrame) (w : World) :
  same_controls w (render timestamp frame w).1.
Proof.
  destruct frame as [f|]; [|rewrite render_idle_eq; apply controls_draw_call].
  rewrite render_frame_eq.
  set (w1 := if negb _ then _ else _).
  assert (H1 : same_controls w w1).
  { subst w1. destruct (negb _);
      [apply controls_requestHitTestSource | apply same_controls_refl]. }
  pose proof (controls_getHitTestResults f w1) as H2.
  destruct (getHitTestResults f w1) as [w2 [|e]]; simpl in H2.
  - eapply same_controls_trans; [|apply controls_draw_call].
    by eapply same_controls_trans.
  - by eapply same_controls_trans.
Qed.

(** The heap after a frame that reports a surface, and after one that
    reports none. *)
Lemma render_heap_hit (timestamp : Z) (p : list number)
    (rest : list (list number)) (src r : nat) (w : World) :
  hitTestSource w = Some src -> reticle w = Some r ->
  heap (render timestamp (Some (mkFrame (p :: rest))) w).1
  = alter (set_matrix (fromArray p)) r (alter (set_visible true) r (heap w)).
Proof.
  intros Hs Hr. rewrite render_frame_eq.
  set (w1 := if negb _ then _ else _).
  assert (H1 : same_controls w w1 /\ heap w1 = heap w).
  { subst w1. destruct (negb _);
      [split; [apply controls_requestHitTestSource
              |apply requestHitTestSource_heap]
      |split; [apply same_controls_refl|done]]. }
  destruct H1 as ((_ & Hr1 & _ & _ & Hs1 & _) & Hh1).
  unfold getHitTestResults. rewrite Hs1, Hs, Hr1, Hr. simpl.
  by rewrite draw_call_heap, <- Hh1.
Qed.

Lemma render_heap_miss (timestamp : Z) (src r : nat) (w : World) :
  hitTestSource w = Some src -> reticle w = Some r ->
  heap (render timestamp (Some (mkFrame [])) w).1
  = alter (set_visible false) r (heap w).
Proof.
  intros Hs Hr. rewrite render_frame_eq.
  set (w1 := if negb _ then _ else _).
  assert (H1 : same_controls w w1 /\ heap w1 = heap w).
  { subst w1. destruct (negb _);
      [split; [apply controls_requestHitTestSource
              |apply requestHitTestSource_heap]
      |split; [apply same_controls_refl|done]]. }
  destruct H1 as ((_ & Hr1 & _ & _ & Hs1 & _) & Hh1).
  unfold getHitTestResults. rewrite Hs1, Hs, Hr1, Hr. simpl.
  by rewrite draw_call_heap, <- Hh1.
Qed.

Lemma step_frame_running (timestamp : Z) (frame : option XRFrame) (w : World) :
  animationLoop w = Some CbRender ->
  heap (step w (EFrame timestamp frame)) = heap (render timestamp frame w).1 /\
  same_controls w (step w (EFrame timestamp frame)).
Proof.
  intros Hloop. simpl. rewrite Hloop.
  pose proof (controls_render timestamp frame w) as Hc.
  destruct (render timestamp frame w) as [w1 c1]. simpl in *.
  split; [apply record_heap|].
  eapply same_controls_trans; [exact Hc | apply controls_record].
Qed.

(** ** Frame, then selection *)

(** X1. With the render loop running, a hit-test source at hand, the
    marker loaded and an object set: a frame that reports a surface,
    followed by a selection, leaves the object visible at the translation
    of the reported pose, its rotation and scale untouched - whether or
    not the frame callback itself ended in the draw-call fault. *)
Theorem frame_then_select_places
    (w : World) (timestamp : Z) (p : list number) (rest : list (list number))
    (src r c : nat) (R C : Object3D) :
  animationLoop w = Some CbRender ->
  hitTestSource w = Some src ->
  reticle w = Some r -> heap w !! r = Some R ->
  chair w = Some c -> heap w !! c = Some C ->
  c <> r -> length p = 16 ->
  exists C',
    heap (run w [EFrame timestamp (Some (mkFrame (p :: rest))); ESelect]) !! c
      = Some C' /\
    position C' = pose_position p /\
    visible C' = true /\
    quaternion C' = quaternion C /\
    scale C' = scale C.
Proof.
  intros Hloop Hs Hr HR Hc HC Hne Hlen.
  change (run w [EFrame timestamp (Some (mkFrame (p :: rest))); ESelect])
    with (step (step w (EFrame timestamp (Some (mkFrame (p :: rest))))) ESelect).
  destruct (step_frame_running timestamp (Some (mkFrame (p :: rest))) w Hloop)
    as (Hh & Hc1 & Hr1 & _).
  rewrite (render_heap_hit timestamp p rest src r w Hs Hr) in Hh.
  set (w1 := step w (EFrame timestamp (Some (mkFrame (p :: rest))))) in *.
  assert (HR1 : heap w1 !! r
                = Some (set_matrix (fromArray p) (set_visible true R))).
  { rewrite Hh. apply lookup_alter_same. by apply lookup_alter_same. }
  assert (HC1 : heap w1 !! c = Some C).
  { rewrite Hh, !lookup_alter_other by done. exact HC. }
  change (step w1 ESelect) with (let '(w2, c2) := onSelect w1 in record c2 w2).
  unfold onSelect. rewrite Hc1, Hc, Hr1, Hr, HR1. simpl.
  eexists. split.
  - apply lookup_alter_same. apply lookup_alter_same. exact HC1.
  - simpl. rewrite (fromArray_full p Hlen). by repeat split.
Qed.

Lemma frame_then_select_places_witness :
  exists C',
    heap (run acquired [EFrame 16 (Some (mkFrame [pose_at 1 0 2])); ESelect]) !! 3
      = Some C' /\
    position C' = pose_position (pose_at 1 0 2) /\
    visible C' = true /\
    quaternion C' = quaternion (set_visible false sample_gltf) /\
    scale C' = scale (set_visible false sample_gltf).
Proof.
  apply (frame_then_select_places acquired 16 (pose_at 1 0 2) [] 9 1 3
           (set_visible false (set_visible false sample_gltf))
           (set_visible false sample_gltf));
    try reflexivity; lia.
Defined.

(** X2. With a hit-test source at hand: a frame that reports no surface
    hides the marker and keeps its matrix, and a selection that follows
    does nothing at all. (Before the source has arrived a frame does not
    touch the marker, and this does not apply.) *)
Theorem miss_then_select_places_nothing
    (w : World) (timestamp : Z) (src r : nat) (R : Object3D) :
  animationLoop w = Some CbRender ->
  hitTestSource w = Some src ->
  reticle w = Some r -> heap w !! r = Some R ->
  heap (step w (EFrame timestamp (Some (mkFrame [])))) !! r
    = Some (set_visible false R) /\
  matrix (set_visible false R) = matrix R /\
  step (step w (EFrame timestamp (Some (mkFrame [])))) ESelect
    = step w (EFrame timestamp (Some (mkFrame []))).
Proof.
  intros Hloop Hs Hr HR.
  destruct (step_frame_running timestamp (Some (mkFrame [])) w Hloop)
    as (Hh & _ & Hr1 & _).
  rewrite (render_heap_miss timestamp src r w Hs Hr) in Hh.
  set (w1 := step w (EFrame timestamp (Some (mkFrame [])))) in *.
  assert (HR1 : heap w1 !! r = Some (set_visible false R)).
  { rewrite Hh. by apply lookup_alter_same. }
  split; [exact HR1|]. split; [done|].
  change (step w1 ESelect) with (let '(w2, c2) := onSelect w1 in record c2 w2).
  unfold onSelect. destruct (chair w1); [|done].
  by rewrite Hr1, Hr, HR1.
Qed.

Lemma miss_then_select_places_nothing_witness :
  hitTestSource tracking_cam = Some 9 /\
  uncaught (step tracking_cam (EFrame 32 (Some (mkFrame [])))) = [] /\
  step (step tracking_cam (EFrame 32 (Some (mkFrame [])))) ESelect
  = step tracking_cam (EFrame 32 (Some (mkFrame []))).
Proof.
  split; [reflexivity|]. split; [reflexivity|].
  refine (proj2 (proj2 (miss_then_select_places_nothing tracking_cam 32 9 1
            (set_matrix (pose_at 1 0 2) (set_visible true
               (set_visible false (set_visible false sample_gltf))))
            _ _ _ _))); reflexivity.
Defined.

(** ** The latch, once set *)

Lemma record_trace (c : Completion) (w : World) : trace (record c w) = trace w.
Proof. by destruct c. Qed.

Lemma step_latched (w : World) (ev : Event) :
  is_session_end ev = false ->
  hitTestSourceRequested w = true ->
  hitTestSourceRequested (step w ev) = true /\
  count_action AAcquireHitTest (step w ev) = count_action AAcquireHitTest w.
Proof.
  intros Hev Hl.
  destruct ev as [id|pid r|pid r|pid r|pid r|ts f| |s']; simpl in *;
    try discriminate Hev.
  - done.
  - destruct (promises w !! pid) as [[]|]; try done.
    destruct r; unfold count_action; simpl; by rewrite count_snoc.
  - destruct (promises w !! pid) as [[]|]; try done. by destruct r as [[]|].
  - destruct (promises w !! pid) as [[]|]; try done.
    destruct r; unfold count_action; simpl; [by rewrite count_snoc|done].
  - destruct (promises w !! pid) as [[]|]; try done. by destruct r.
  - destruct (animationLoop w) as [[]|]; [|done].
    pose proof (render_latched ts f w Hl) as Hcount.
    destruct (controls_render ts f w) as (_ & _ & _ & Hl' & _).
    destruct (render ts f w) as [w1 c1]. simpl in *.
    unfold count_action in *. rewrite record_trace.
    split; [|done]. destruct c1; simpl; congruence.
  - pose proof (onSelect_heap_only w) as Hw.
    destruct (onSelect w) as [w1 c1]. simpl in *.
    assert (Ht : trace w1 = trace w) by (by apply (f_equal trace) in Hw).
    assert (Hl1 : hitTestSourceRequested w1 = hitTestSourceRequested w)
      by (by apply (f_equal hitTestSourceRequested) in Hw).
    unfold count_action. rewrite record_trace, Ht.
    split; [|done]. destruct c1; simpl; congruence.
Qed.

(** X3. Once the latch is set, no event short of the end of a session
    makes the program call requestHitTestSource again: frames, clicks,
    fetches, selections and promise settlements in any number and order
    leave the latch set and the number of acquisitions as it is. *)
Theorem latched_acquires_nothing (w : World) (evs : list Event) :
  hitTestSourceRequested w = true ->
  forallb (fun ev => negb (is_session_end ev)) evs = true ->
  hitTestSourceRequested (run w evs) = true /\
  count_action AAcquireHitTest (run w evs) = count_action AAcquireHitTest w.
Proof.
  revert w. induction evs as [|ev evs IH]; intros w Hl Hevs; [done|].
  simpl in Hevs. apply andb_true_iff in Hevs as [Hev Hevs].
  apply negb_true_iff in Hev.
  destruct (step_latched w ev Hev Hl) as (Hl' & Hc').
  change (run w (ev :: evs)) with (run (step w ev) evs).
  destruct (IH (step w ev) Hl' Hevs) as (? & ?). split; congruence.
Qed.

Lemma latched_acquires_nothing_witness :
  count_action AAcquireHitTest
    (run acquired
       [EFrame 16 (Some (mkFrame [pose_at 1 0 2])); ESelect;
        EFrame 32 (Some (mkFrame [])); EClick "3";
        EFrame 48 (Some (mkFrame [pose_at 5 0 5]))])
  = count_action AAcquireHitTest acquired.
Proof.
  refine (proj2 (latched_acquires_nothing acquired _ _ _)); reflexivity.
Defined.

(** ** The reset listener *)

Lemma onSessionEnded_latch (cid : nat) (w : World) :
  hitTestSourceRequested (onSessionEnded cid w) = hitTestSourceRequested w /\
  hitTestSource (onSessionEnded cid w) = hitTestSource w.
Proof.
  unfold onSessionEnded.
  destruct (closures w !! cid) as [cl|]; [|done].
  destruct (currentSession cl); [|done].
  by destruct (ar_chair cl).
Qed.

(** [onSessionEnded] removes itself only: the reset stays registered. *)
Lemma onSessionEnded_keeps_reset (cid s : nat) (w : World) :
  registered s HitTestReset w = true ->
  registered s HitTestReset (onSessionEnded cid w) = true.
Proof.
  intros H. unfold onSessionEnded.
  destruct (closures w !! cid) as [cl|]; [|done].
  destruct (currentSession cl) as [s'|]; [|done].
  assert (Hreg : registered s HitTestReset
                   (removeEventListener s' (OnSessionEnded cid) w) = true).
  { unfold registered, removeEventListener in *. simpl.
    destruct (decide (s' = s)) as [->|Hne].
    - rewrite list_lookup_alter_eq.
      destruct (sessions w !! s) as [ses|]; [|done]. simpl.
      apply bool_decide_eq_true in H. apply bool_decide_eq_true.
      apply list_elem_of_filter. by split.
    - by rewrite list_lookup_alter_ne. }
  by destruct (ar_chair cl).
Qed.

Lemma run_listener_keeps_reset (s : nat) (l : Listener) (w : World) :
  registered s HitTestReset w = true ->
  registered s HitTestReset (run_listener s w l) = true.
Proof.
  intros H. unfold run_listener. destruct (registered s l w); [|done].
  destruct l; [by apply onSessionEnded_keeps_reset | done].
Qed.

Lemma run_listener_stays_reset (s : nat) (l : Listener) (w : World) :
  hitTestSourceRequested w = false /\ hitTestSource w = None ->
  hitTestSourceRequested (run_listener s w l) = false /\
  hitTestSource (run_listener s w l) = None.
Proof.
  intros [H1 H2]. unfold run_listener. destruct (registered s l w); [|done].
  destruct l as [cid|]; [|done].
  destruct (onSessionEnded_latch cid w) as (-> & ->). done.
Qed.

Lemma dispatch_resets_latch (s : nat) (ls : list Listener) (w : World) :
  registered s HitTestReset w = true ->
  (hitTestSourceRequested w = false /\ hitTestSource w = None) \/
  HitTestReset ∈ ls ->
  hitTestSourceRequested (foldl (run_listener s) w ls) = false /\
  hitTestSource (foldl (run_listener s) w ls) = None.
Proof.
  revert w. induction ls as [|l ls IH]; intros w Hreg Hor; simpl.
  - destruct Hor as [?|Hin]; [done|]. by apply elem_of_nil in Hin.
  - apply IH; [by apply run_listener_keeps_reset|].
    destruct Hor as [Hdone|Hin]; [left; by apply run_listener_stays_reset|].
    apply elem_of_cons in Hin as [<-|Hin]; [|by right].
    left. unfold run_listener. by rewrite Hreg.
Qed.

(** X4. When a session ends on which requestHitTestSource has installed
    its listener (so the hit-test source had arrived during that
    session), the latch is cleared and the source forgotten, whatever
    else is registered on the session. *)
Theorem session_end_resets_latch (w : World) (s : nat) (ses : Session) :
  sessions w !! s = Some ses ->
  ended ses = false ->
  HitTestReset ∈ listeners ses ->
  hitTestSourceRequested (step w (ESessionEnd s)) = false /\
  hitTestSource (step w (ESessionEnd s)) = None.
Proof.
  intros Hs He Hin. simpl. unfold session_end. rewrite Hs, He. simpl.
  apply dispatch_resets_latch; [|by right].
  unfold registered. rewrite Hs. by apply bool_decide_eq_true.
Qed.

Lemma session_end_resets_latch_witness :
  hitTestSourceRequested acquired = true /\
  hitTestSourceRequested (step acquired (ESessionEnd 0)) = false /\
  hitTestSource (step acquired (ESessionEnd 0)) = None.
Proof.
  split; [reflexivity|].
  apply (session_end_resets_latch acquired 0
           (mkSession [OnSessionEnded 0; HitTestReset] false));
    [reflexivity | reflexivity |].
  apply (bool_decide_unpack _). vm_compute. exact I.
Defined.

(** ** Doing it twice *)

(** X5. [onSessionEnded] is idempotent: its first run clears
    [currentSession], so the guard of line 164 turns a second run into a
    no-op - no second removal from the scene, no second stop of the
    loop. *)
Theorem onSessionEnded_idempotent (cid : nat) (w : World) :
  onSessionEnded cid (onSessionEnded cid w) = onSessionEnded cid w.
Proof.
  destruct (closures w !! cid) as [cl|] eqn:Hcl;
    [|unfold onSessionEnded; by rewrite Hcl, Hcl].
  destruct (currentSession cl) as [s|] eqn:Hcur;
    [|unfold onSessionEnded; by rewrite Hcl, Hcur, Hcl, Hcur].
  destruct (onSessionEnded_held cid s cl w Hcl Hcur) as (_ & Ecl & _ & _).
  set (w1 := onSessionEnded cid w) in *.
  unfold onSessionEnded at 1.
  by rewrite Ecl, list_lookup_alter_eq, Hcl.
Qed.

(** X6. Selecting twice while the marker has not moved is the same as
    selecting once: the second selection writes the position and the
    visibility the first one wrote. *)
Theorem onSelect_idempotent (w : World) :
  onSelect (onSelect w).1 = onSelect w.
Proof.
  assert (Hnoop : forall out, onSelect w = (w, out) ->
                              onSelect (onSelect w).1 = onSelect w).
  { intros out E. by rewrite E. }
  destruct (chair w) as [c|] eqn:Hc;
    [|apply (Hnoop Normal); unfold onSelect; by rewrite Hc].
  destruct (reticle w) as [r|] eqn:Hr;
    [|eapply Hnoop; unfold onSelect; by rewrite Hc, Hr].
  destruct (heap w !! r) as [R|] eqn:HR;
    [|eapply Hnoop; unfold onSelect; by rewrite Hc, Hr, HR].
  destruct (visible R) eqn:Hv;
    [|eapply Hnoop; unfold onSelect; by rewrite Hc, Hr, HR, Hv].
  set (p := setFromMatrixPosition (matrix R)).
  set (h1 := alter (set_visible true) c (alter (set_position p) c (heap w))).
  assert (E : onSelect w
              = (set_heap h1 (set_heap (alter (set_position p) c (heap w)) w),
                 Normal)).
  { unfold onSelect. by rewrite Hc, Hr, HR, Hv. }
  assert (HR1 : exists R', h1 !! r = Some R' /\ visible R' = true /\
                           matrix R' = matrix R).
  { subst h1. destruct (decide (c = r)) as [->|Hne].
    - eexists. split; [apply lookup_alter_same; by apply lookup_alter_same|done].
    - exists R. by rewrite !lookup_alter_other. }
  destruct HR1 as (R' & HR1 & Hv1 & Hm1).
  rewrite E. simpl. unfold onSelect. simpl. rewrite Hc, Hr, HR1, Hv1, Hm1.
  fold p. f_equal. unfold set_heap. simpl. f_equal.
  subst h1. rewrite !list_alter_alter_eq. by apply list_alter_ext.
Qed.

(** ** One session request per completed click *)








(** ** Start-up and the click handler *)

(** X8. However the two start-up fetches settle, start-up goes on to
    set up XR: the latch is unset, no hit-test source and no object are
    held, no session has been requested and the render loop is not
    started; each failed fetch leaves exactly one console error; the
    environment is set exactly when its fetch succeeded; and the marker,
    if it loaded, is object 1, in the scene and hidden whatever
    visibility its file gave it. *)
Theorem startup_completes
    (gl : list string) (hdr : Settle nat) (gltf : Settle Object3D) :
  count_action ARequestSession (initApp gl hdr gltf) = 0 /\
  animationLoop (initApp gl hdr gltf) = None /\
  chair (initApp gl hdr gltf) = None /\
  hitTestSourceRequested (initApp gl hdr gltf) = false /\
  hitTestSource (initApp gl hdr gltf) = None /\
  length (console (initApp gl hdr gltf)) = rejected hdr + rejected gltf /\
  environment (initApp gl hdr gltf)
    = match hdr with Fulfil texture => Some texture | Reject _ => None end /\
  match gltf with
  | Fulfil o =>
      reticle (initApp gl hdr gltf) = Some 1 /\
      heap (initApp gl hdr gltf) !! 1 = Some (set_visible false o) /\
      children (initApp gl hdr gltf) = [0; 1; 2]
  | Reject _ =>
      reticle (initApp gl hdr gltf) = None /\
      children (initApp gl hdr gltf) = [0; 1]
  end.
Proof. destruct hdr, gltf; vm_compute; by repeat split. Qed.

(** X9. When the model fetch of a click fails, the handler goes on
    regardless: the error is logged, no object is chosen, and still a
    session is requested (for an activation without object) and the
    render loop started; heap and scene are untouched, and a selection
    in that state changes nothing. *)
Theorem failed_fetch_still_starts
    (w : World) (pid : nat) (id : string) (e : Error) :
  promises w !! pid = Some (PChair id) ->
  chair (step w (EChairFetched pid (Reject e))) = None /\
  console (step w (EChairFetched pid (Reject e)))
    = console w ++ [("An error occurred loading the chair", e)] /\
  trace (step w (EChairFetched pid (Reject e))) = trace w ++ [ARequestSession] /\
  closures (step w (EChairFetched pid (Reject e)))
    = closures w ++ [mkAR None None] /\
  animationLoop (step w (EChairFetched pid (Reject e))) = Some CbRender /\
  heap (step w (EChairFetched pid (Reject e))) = heap w /\
  children (step w (EChairFetched pid (Reject e))) = children w /\
  step (step w (EChairFetched pid (Reject e))) ESelect
    = step w (EChairFetched pid (Reject e)).
Proof. intros H. simpl. rewrite H. by repeat split. Qed.

Lemma failed_fetch_still_starts_witness :
  chair (step (step booted (EClick "3"))
           (EChairFetched 0 (Reject (HostError "404")))) = None /\
  trace (step (step booted (EClick "3"))
           (EChairFetched 0 (Reject (HostError "404"))))
  = trace (step booted (EClick "3")) ++ [ARequestSession].
Proof.
  pose proof (failed_fetch_still_starts (step booted (EClick "3")) 0 "3"
                (HostError "404") eq_refl) as H.
  exact (conj (proj1 H) (proj1 (proj2 (proj2 H)))).
Defined.

(** X10. When the model fetch of a click succeeds, the model becomes a
    new object, hidden whatever its file said, appended to the scene's
    children if it was not among them; it is the object [onSelect] will
    place and the one the new activation will remove; every object that
    existed keeps its cell; a session is requested and the loop started. *)
Theorem fetched_model_joins_hidden
    (w : World) (pid : nat) (id : string) (o : Object3D) :
  promises w !! pid = Some (PChair id) ->
  chair (step w (EChairFetched pid (Fulfil o))) = Some (length (heap w)) /\
  heap (step w (EChairFetched pid (Fulfil o))) !! length (heap w)
    = Some (set_visible false o) /\
  (forall i, i < length (heap w) ->
             heap (step w (EChairFetched pid (Fulfil o))) !! i = heap w !! i) /\
  length (heap w) ∈ children (step w (EChairFetched pid (Fulfil o))) /\
  (length (heap w) ∉ children w ->
   children (step w (EChairFetched pid (Fulfil o)))
   = children w ++ [length (heap w)]) /\
  closures (step w (EChairFetched pid (Fulfil o)))
    = closures w ++ [mkAR None (Some (length (heap w)))] /\
  trace (step w (EChairFetched pid (Fulfil o))) = trace w ++ [ARequestSession] /\
  animationLoop (step w (EChairFetched pid (Fulfil o))) = Some CbRender.
Proof.
  intros H. simpl. rewrite H. simpl. split_and!; try done.
  - rewrite list_lookup_alter_eq, lookup_snoc_last. done.
  - intros i Hi. rewrite list_lookup_alter_ne by lia. by apply lookup_app_l.
  - unfold add_child. apply elem_of_app. right. apply list_elem_of_here.
  - intros Hnot. unfold add_child. f_equal.
    generalize dependent (length (heap w)). intros c Hc.
    induction (children w) as [|d cs IH]; [done|]. simpl.
    apply not_elem_of_cons in Hc as [Hne Hc].
    rewrite decide_False by done. f_equal. by apply IH.
Qed.

Lemma fetched_model_joins_hidden_witness :
  chair (step (step booted (EClick "3")) (EChairFetched 0 (Fulfil sample_gltf)))
  = Some (length (heap (step booted (EClick "3")))) /\
  heap (step (step booted (EClick "3")) (EChairFetched 0 (Fulfil sample_gltf)))
    !! length (heap (step booted (EClick "3")))
  = Some (set_visible false sample_gltf).
Proof.
  pose proof (fetched_model_joins_hidden (step booted (EClick "3")) 0 "3"
                sample_gltf eq_refl) as H.
  exact (conj (proj1 H) (proj1 (proj2 H))).
Defined.

(** ** A session from start to end *)

Lemma granted_fields (w : World) (pid cid : nat) :
  promises w !! pid = Some (PSession cid) ->
  sessions (granted pid w)
  = alter (fun ses => mkSession (listeners ses ++ [OnSessionEnded cid])
                        (ended ses))
      (length (sessions w)) (sessions w ++ [mkSession [] false]) /\
  closures (granted pid w)
  = alter (fun cl => mkAR (Some (length (sessions w))) (ar_chair cl)) cid
      (closures w) /\
  xrSession (granted pid w) = Some (length (sessions w)) /\
  children (granted pid w) = children w /\
  heap (granted pid w) = heap w /\
  animationLoop (granted pid w) = animationLoop w.
Proof. intros H. unfold granted. simpl. rewrite H. by repeat split. Qed.

Lemma granted_session (w : World) (pid cid : nat) :
  promises w !! pid = Some (PSession cid) ->
  sessions (granted pid w) !! length (sessions w)
  = Some (mkSession [OnSessionEnded cid] false).
Proof.
  intros H. destruct (granted_fields w pid cid H) as (-> & _).
  by rewrite list_lookup_alter_eq, lookup_snoc_last.
Qed.

(** X11. A granted request makes the requesting activation, and no
    other, hold the new session, registers its end handler and hands the
    session to the renderer; when that session then ends, it is no longer
    live, the activation holds nothing, its object is off the scene and
    the loop is stopped: start followed by end brings the lifecycle back
    to idle. *)
Theorem session_start_then_end (w : World) (pid cid : nat) :
  reachable w ->
  promises w !! pid = Some (PSession cid) ->
  exists cl,
    closures w !! cid = Some cl /\
    currentSession cl = None /\
    session_active (length (sessions w)) (granted pid w) = true /\
    xrSession (granted pid w) = Some (length (sessions w)) /\
    closures (granted pid w) !! cid
      = Some (mkAR (Some (length (sessions w))) (ar_chair cl)) /\
    (forall cid', cid' <> cid ->
                  closures (granted pid w) !! cid' = closures w !! cid') /\
    session_active (length (sessions w))
      (step (granted pid w) (ESessionEnd (length (sessions w)))) = false /\
    closures (step (granted pid w) (ESessionEnd (length (sessions w)))) !! cid
      = Some (mkAR None None) /\
    (forall c, ar_chair cl = Some c ->
       c ∉ children (step (granted pid w) (ESessionEnd (length (sessions w))))) /\
    animationLoop (step (granted pid w) (ESessionEnd (length (sessions w))))
      = None.
Proof.
  intros Hreach Hp. pose proof (reachable_inv w Hreach) as I.
  destruct (inv_pending w I pid cid Hp) as (cl & Hcl & Hcur).
  exists cl. split; [done|]. split; [done|].
  destruct (granted_fields w pid cid Hp) as (Ese & Ecl & Exr & Ech & _ & _).
  pose proof (granted_session w pid cid Hp) as Hs.
  set (s := length (sessions w)) in *. set (w1 := granted pid w) in *.
  assert (Hcl1 : closures w1 !! cid = Some (mkAR (Some s) (ar_chair cl)))
    by (by rewrite Ecl, list_lookup_alter_eq, Hcl).
  assert (Hend : let w2 := step w1 (ESessionEnd s) in
            children w2 = children (onSessionEnded cid w1) /\
            closures w2 = closures (onSessionEnded cid w1) /\
            animationLoop w2 = animationLoop (onSessionEnded cid w1) /\
            sessions w2 = alter (fun ses => mkSession (listeners ses) true) s
                            (sessions (onSessionEnded cid w1))).
  { simpl. unfold session_end. rewrite Hs. simpl.
    unfold run_listener, registered. rewrite Hs. simpl.
    rewrite bool_decide_eq_true_2 by apply list_elem_of_here. done. }
  destruct Hend as (Ech2 & Ecl2 & Ean2 & Ese2).
  destruct (onSessionEnded_held cid s _ w1 Hcl1 eq_refl)
    as (Ech' & Ecl' & Ean' & Ese').
  split_and!.
  - unfold session_active. by rewrite Hs.
  - done.
  - done.
  - intros cid' Hne. by rewrite Ecl, list_lookup_alter_ne.
  - unfold session_active. rewrite Ese2, Ese', !list_lookup_alter_eq, Hs. done.
  - by rewrite Ecl2, Ecl', list_lookup_alter_eq, Hcl1.
  - intros c Hc. rewrite Ech2, Ech'. simpl. rewrite Hc, Ech.
    apply remove_child_gone, I.
  - by rewrite Ean2.
Qed.

Lemma session_start_then_end_witness :
  exists cl,
    closures requesting !! 0 = Some cl /\
    currentSession cl = None /\
    session_active (length (sessions requesting)) (granted 1 requesting) = true /\
    xrSession (granted 1 requesting) = Some (length (sessions requesting)) /\
    closures (granted 1 requesting) !! 0
      = Some (mkAR (Some (length (sessions requesting))) (ar_chair cl)) /\
    (forall cid', cid' <> 0 ->
                  closures (granted 1 requesting) !! cid'
                  = closures requesting !! cid') /\
    session_active (length (sessions requesting))
      (step (granted 1 requesting)
         (ESessionEnd (length (sessions requesting)))) = false /\
    closures (step (granted 1 requesting)
                (ESessionEnd (length (sessions requesting)))) !! 0
      = Some (mkAR None None) /\
    (forall c, ar_chair cl = Some c ->
       c ∉ children (step (granted 1 requesting)
                       (ESessionEnd (length (sessions requesting))))) /\
    animationLoop (step (granted 1 requesting)
                     (ESessionEnd (length (sessions requesting)))) = None.
Proof.
  apply (session_start_then_end requesting 1 0).
  - unfold requesting. apply reachable_run, booted_reachable.
  - reflexivity.
Defined.

(** ** No stale session reference *)

Lemma held_same (w w' : World) :
  closures w' = closures w -> sessions w' = sessions w ->
  held_sessions_live w -> held_sessions_live w'.
Proof. intros Hc Hs H cid cl s. rewrite Hc, Hs. apply H. Qed.

Lemma held_quiet (w w' : World) :
  quiet w w' -> held_sessions_live w -> held_sessions_live w'.
Proof. intros (_ & Hc & Hs & _). by apply held_same. Qed.

Lemma held_initAR (c : option nat) (w : World) :
  held_sessions_live w -> held_sessions_live (initAR c w).
Proof.
  intros H cid cl s Hcl Hcur. unfold initAR in Hcl. simpl in Hcl.
  apply lookup_snoc_Some in Hcl as [[_ Hcl]|[_ <-]]; [|done].
  exact (H cid cl s Hcl Hcur).
Qed.

Lemma held_onClick_resume (fetch : Settle Object3D) (w : World) :
  held_sessions_live w -> held_sessions_live (onClick_resume fetch w).
Proof.
  intros H. unfold onClick_resume.
  assert (H' : held_sessions_live (loadChair fetch w).1)
    by (destruct fetch; by apply (held_same w)).
  destruct (loadChair fetch w) as [wl [chair|e]]; simpl in H'.
  - unfold setAnimationLoop, setChair.
    apply (held_same (initAR chair (set_chair chair wl))); try done.
    apply held_initAR. by apply (held_same wl).
  - by apply (held_same wl).
Qed.

Lemma held_session_started (w : World) (pid cid : nat) :
  promises w !! pid = Some (PSession cid) ->
  held_sessions_live w -> held_sessions_live (granted pid w).
Proof.
  intros Hp H cid0 cl0 s0 Hcl0 Hcur0.
  destruct (granted_fields w pid cid Hp) as (Ese & Ecl & _).
  pose proof (granted_session w pid cid Hp) as Hs.
  rewrite Ecl in Hcl0.
  destruct (decide (cid = cid0)) as [<-|Hne].
  - rewrite list_lookup_alter_eq in Hcl0.
    destruct (closures w !! cid) as [cl|]; [|done].
    injection Hcl0 as <-. injection Hcur0 as <-.
    by exists (mkSession [OnSessionEnded cid] false), [].
  - rewrite list_lookup_alter_ne in Hcl0 by done.
    destruct (H cid0 cl0 s0 Hcl0 Hcur0) as (ses & rest & Hs0 & ? & ?).
    exists ses, rest. split_and!; try done.
    rewrite Ese, list_lookup_alter_ne
      by (apply lookup_lt_Some in Hs0; lia).
    by apply lookup_app_l_Some.
Qed.

Lemma held_hit_source (s src : nat) (w : World) :
  held_sessions_live w ->
  held_sessions_live (requestHitTestSource_source s (Fulfil src) w).
Proof.
  intros H cid cl s0 Hcl Hcur.
  destruct (H cid cl s0 Hcl Hcur) as (ses & rest & Hs0 & He & Hl).
  unfold requestHitTestSource_source, addEventListener. simpl.
  destruct (decide (s = s0)) as [<-|Hne].
  - eexists _, (rest ++ [HitTestReset]).
    rewrite list_lookup_alter_eq, Hs0. simpl.
    split_and!; try done. by rewrite Hl.
  - exists ses, rest. by rewrite list_lookup_alter_ne.
Qed.

Lemma session_end_view (s : nat) (ses : Session) (w : World) :
  lifecycle_inv w ->
  sessions w !! s = Some ses -> ended ses = false ->
  exists cid rest cl,
    listeners ses = OnSessionEnded cid :: rest /\
    closures w !! cid = Some cl /\ currentSession cl = Some s /\
    closures (session_end s w)
    = alter (fun _ => mkAR None None) cid (closures w) /\
    sessions (session_end s w)
    = alter (fun ses => mkSession (listeners ses) true) s
        (alter (fun ses =>
                  mkSession (filter (fun l => l <> OnSessionEnded cid)
                               (listeners ses)) (ended ses)) s (sessions w)).
Proof.
  intros I Hs He.
  destruct (inv_sessions w I s ses Hs He)
    as (cid & rest & cl & Hl & Hrest & Hcl & Hcur).
  exists cid, rest, cl. split_and!; try done.
  all: destruct (onSessionEnded_held cid s cl w Hcl Hcur) as (_ & Ecl & _ & Ese).
  all: unfold session_end; rewrite Hs, He, Hl; simpl.
  all: assert (Hrun : run_listener s w (OnSessionEnded cid)
                      = onSessionEnded cid w)
      by (unfold run_listener, registered; rewrite Hs, Hl;
          by rewrite bool_decide_eq_true_2 by apply list_elem_of_here).
  all: rewrite Hrun.
  all: destruct (dispatch_resets s rest (onSessionEnded cid w) Hrest)
      as (_ & Hc & Hs' & _).
  - by rewrite Hc.
  - by rewrite Hs', Ese.
Qed.

Lemma held_session_end (s : nat) (w : World) :
  lifecycle_inv w ->
  held_sessions_live w -> held_sessions_live (session_end s w).
Proof.
  intros I H.
  destruct (sessions w !! s) as [ses|] eqn:Hs;
    [|unfold session_end; by rewrite Hs].
  destruct (ended ses) eqn:He; [unfold session_end; by rewrite Hs, He|].
  destruct (session_end_view s ses w I Hs He)
    as (cid & rest & cl & Hl & Hcl & Hcur & Ecl & Ese).
  intros cid0 cl0 s0 Hcl0 Hcur0. rewrite Ecl in Hcl0.
  destruct (decide (cid = cid0)) as [<-|Hne].
  - rewrite list_lookup_alter_eq, Hcl in Hcl0. injection Hcl0 as <-. done.
  - rewrite list_lookup_alter_ne in Hcl0 by done.
    destruct (H cid0 cl0 s0 Hcl0 Hcur0) as (ses0 & rest0 & Hs0 & He0 & Hl0).
    exists ses0, rest0. split_and!; try done.
    rewrite Ese, !list_lookup_alter_ne; [done| |].
    all: intros <-; rewrite Hs in Hs0; injection Hs0 as <-; congruence.
Qed.

Lemma held_step (w : World) (ev : Event) :
  lifecycle_inv w ->
  held_sessions_live w -> held_sessions_live (step w ev).
Proof.
  intros I H. destruct ev as [id|pid r|pid r|pid r|pid r|ts f| |s].
  - simpl. by apply (held_same w).
  - simpl. destruct (promises w !! pid) as [[]|]; try done.
    apply held_onClick_resume. by apply (held_same w).
  - destruct (promises w !! pid) as [[| cid | | |]|] eqn:Hp;
      try (simpl; by rewrite Hp).
    destruct r as [[]|e]; [by apply (held_session_started w pid cid)|].
    simpl. rewrite Hp. by apply (held_same w).
  - simpl. destruct (promises w !! pid) as [[]|]; try done.
    eapply held_quiet; [|exact H].
    eapply quiet_trans; [apply quiet_settle|apply quiet_requestHitTestSource_space].
  - simpl. destruct (promises w !! pid) as [[]|]; try done.
    destruct r as [src|e]; [|by apply (held_same w)].
    apply held_hit_source. by apply (held_same w).
  - simpl. destruct (animationLoop w) as [[]|]; [|done].
    pose proof (quiet_render ts f w) as Hq.
    destruct (render ts f w) as [w' c]. simpl in Hq.
    eapply held_quiet; [|exact H].
    eapply quiet_trans; [exact Hq|apply quiet_record].
  - simpl. pose proof (quiet_onSelect w) as Hq.
    destruct (onSelect w) as [w' c]. simpl in Hq.
    eapply held_quiet; [|exact H].
    eapply quiet_trans; [exact Hq|apply quiet_record].
  - by apply held_session_end.
Qed.

(** X12. An activation never holds a stale session reference: in every
    world the program reaches, a non-null [currentSession] names a session
    that has not ended and whose first ['end'] listener is that
    activation's own [onSessionEnded]; hence no two activations hold the
    same session. *)
Theorem held_sessions_are_live (w : World) :
  reachable w ->
  held_sessions_live w /\
  (forall cid1 cid2 cl1 cl2 s,
      closures w !! cid1 = Some cl1 -> currentSession cl1 = Some s ->
      closures w !! cid2 = Some cl2 -> currentSession cl2 = Some s ->
      cid1 = cid2).
Proof.
  intros Hreach.
  assert (H : held_sessions_live w).
  { induction Hreach as [gl hdr gltf|w ev Hreach IH].
    - intros cid cl s Hcl. by destruct hdr, gltf.
    - apply held_step; [by apply reachable_inv|done]. }
  split; [exact H|].
  intros cid1 cid2 cl1 cl2 s H1 C1 H2 C2.
  destruct (H cid1 cl1 s H1 C1) as (ses1 & rest1 & Hs1 & _ & Hl1).
  destruct (H cid2 cl2 s H2 C2) as (ses2 & rest2 & Hs2 & _ & Hl2).
  rewrite Hs1 in Hs2. injection Hs2 as <-. congruence.
Qed.

Lemma held_sessions_are_live_witness :
  exists ses rest,
    sessions tracking !! 0 = Some ses /\ ended ses = false /\
    listeners ses = OnSessionEnded 0 :: rest.
Proof.
  refine (proj1 (held_sessions_are_live tracking _) 0
            (mkAR (Some 0) (Some 3)) 0 _ _); [|reflexivity|reflexivity].
  exact (reachable_run booted tracking_trace booted_reachable).
Defined.

(** ** The marker is not shown before tracking was asked for *)

Lemma marker_visible_same (w w' : World) :
  reticle w' = reticle w ->
  (forall r, reticle w = Some r -> heap w' !! r = heap w !! r) ->
  marker_visible w' = marker_visible w.
Proof.
  intros Hr Hh. unfold marker_visible. rewrite Hr.
  destruct (reticle w) as [r|]; [|done]. by rewrite (Hh r).
Qed.

Lemma source_requested_grows (w w' : World) (l : list Action) :
  trace w' = trace w ++ l -> source_requested w -> source_requested w'.
Proof.
  intros Ht [s Hs]. exists s. rewrite Ht. apply elem_of_app. by left.
Qed.

Lemma tracking_transport (w w' : World) (l : list Action) :
  tracking_inv w ->
  layout w' ->
  trace w' = trace w ++ l ->
  (marker_visible w' = true ->
   marker_visible w = true \/ hitTestSource w <> None) ->
  (hitTestSource w' <> None ->
   hitTestSource w <> None \/
   exists pid s, promises w !! pid = Some (PHitSource s)) ->
  (forall pid s, promises w' !! pid = Some (PHitSource s) ->
     (exists pid', promises w !! pid' = Some (PHitSource s)) \/
     source_requested w') ->
  tracking_inv w'.
Proof.
  intros (_ & N2 & N3 & N4) Hlay Ht Hm Hh Hp.
  pose proof (source_requested_grows w w' l Ht) as Hgrow.
  split; [done|]. split_and!.
  - intros Hv. destruct (Hm Hv); auto.
  - intros Hs. destruct (Hh Hs) as [?|(pid & s & ?)]; eauto.
  - intros pid s Hpid. destruct (Hp pid s Hpid) as [[pid' ?]|?]; eauto.
Qed.

Lemma render_trace_grows (timestamp : Z) (frame : option XRFrame) (w : World) :
  exists l, trace (render timestamp frame w).1 = trace w ++ l.
Proof.
  assert (Hd : forall w', exists l, trace (draw_call w').1 = trace w' ++ l).
  { intros w'. unfold draw_call, then_, ident, exec.
    repeat (destruct (bound _ _ _);
            [|exists []; simpl; by rewrite app_nil_r]).
    by exists [ARenderScene]. }
  destruct frame as [f|]; [|rewrite render_idle_eq; apply Hd].
  rewrite render_frame_eq.
  set (w1 := if negb _ then _ else _).
  assert (H1 : exists l, trace w1 = trace w ++ l).
  { subst w1. destruct (negb _); [|exists []; by rewrite app_nil_r].
    unfold requestHitTestSource. simpl. destruct (xrSession w); simpl.
    - eexists. by rewrite <- app_assoc.
    - by eexists. }
  destruct H1 as [l1 H1].
  destruct (getHitTestResults_keeps f w1) as (_ & Ht & _).
  destruct (getHitTestResults f w1) as [w2 [|e]]; simpl in *.
  - destruct (Hd w2) as [l2 H2]. exists (l1 ++ l2).
    by rewrite H2, Ht, H1, app_assoc.
  - exists l1. by rewrite Ht.
Qed.

Lemma render_promises (timestamp : Z) (frame : option XRFrame) (w : World) :
  promises (render timestamp frame w).1 = promises w \/
  exists s, promises (render timestamp frame w).1 = promises w ++ [PRefSpace s].
Proof.
  assert (Hd : forall w', promises (draw_call w').1 = promises w').
  { intros w'. unfold draw_call, then_, ident, exec.
    by repeat (destruct (bound _ _ _); [|done]). }
  destruct frame as [f|]; [|rewrite render_idle_eq; left; apply Hd].
  rewrite render_frame_eq.
  set (w1 := if negb _ then _ else _).
  assert (H1 : promises w1 = promises w \/
               exists s, promises w1 = promises w ++ [PRefSpace s]).
  { subst w1. destruct (negb _); [|by left].
    unfold requestHitTestSource. simpl.
    destruct (xrSession w) as [s|]; simpl; [right; by exists s | by left]. }
  assert (H2 : promises (getHitTestResults f w1).1 = promises w1).
  { unfold getHitTestResults. destruct (hitTestSource w1); [|done].
    destruct (hitPoses f); simpl; by destruct (reticle w1). }
  destruct (getHitTestResults f w1) as [w2 [|e]]; simpl in *.
  - by rewrite Hd, H2.
  - by rewrite H2.
Qed.

Lemma render_heap_length (timestamp : Z) (frame : option XRFrame) (w : World) :
  length (heap (render timestamp frame w).1) = length (heap w).
Proof.
  destruct frame as [f|]; [|by rewrite render_idle_eq, draw_call_heap].
  rewrite render_frame_eq.
  set (w1 := if negb _ then _ else _).
  assert (H1 : heap w1 = heap w).
  { subst w1. destruct (negb _); [apply requestHitTestSource_heap|done]. }
  assert (H2 : length (heap (getHitTestResults f w1).1) = length (heap w1)).
  { unfold getHitTestResults. destruct (hitTestSource w1); [|done].
    destruct (hitPoses f); simpl; destruct (reticle w1); simpl;
      by rewrite ?length_alter. }
  destruct (getHitTestResults f w1) as [w2 [|e]]; simpl in *.
  - by rewrite draw_call_heap, H2, H1.
  - by rewrite H2, H1.
Qed.

Lemma render_marker (timestamp : Z) (frame : option XRFrame) (w : World) :
  marker_visible (render timestamp frame w).1 = true ->
  marker_visible w = true \/ hitTestSource w <> None.
Proof.
  destruct (hitTestSource w) as [src|] eqn:Hs; [by right|]. left.
  destruct (controls_render timestamp frame w) as (_ & Hr & _).
  rewrite <- H. apply eq_sym, marker_visible_same; [done|]. intros r _.
  destruct frame as [f|]; [|by rewrite render_idle_eq, draw_call_heap].
  rewrite render_frame_eq.
  set (w1 := if negb _ then _ else _).
  assert (H1 : heap w1 = heap w /\ hitTestSource w1 = None).
  { subst w1. destruct (negb _); [|done].
    split; [apply requestHitTestSource_heap|].
    destruct (controls_requestHitTestSource w) as (_ & _ & _ & _ & -> & _).
    done. }
  destruct H1 as [Hh1 Hs1].
  unfold getHitTestResults. rewrite Hs1. by rewrite draw_call_heap, Hh1.
Qed.

Lemma settled_hit (ps : list Pending) (pid p s : nat) :
  <[pid := PSettled]> ps !! p = Some (PHitSource s) ->
  ps !! p = Some (PHitSource s).
Proof.
  intros H. apply list_lookup_insert_Some in H.
  by destruct H as [(_ & [=] & _)|[? ?]].
Qed.

Lemma run_listener_marker (s : nat) (l : Listener) (w : World) :
  reticle (run_listener s w l) = reticle w /\
  chair (run_listener s w l) = chair w /\
  (hitTestSource (run_listener s w l) = hitTestSource w \/
   hitTestSource (run_listener s w l) = None).
Proof.
  unfold run_listener. destruct (registered s l w); [|auto].
  destruct l as [cid|]; [|simpl; auto].
  unfold onSessionEnded.
  destruct (closures w !! cid) as [cl|]; [|auto].
  destruct (currentSession cl); [|auto].
  destruct (ar_chair cl); simpl; auto.
Qed.

Lemma session_end_marker (s : nat) (w : World) :
  reticle (session_end s w) = reticle w /\
  chair (session_end s w) = chair w /\
  (hitTestSource (session_end s w) = hitTestSource w \/
   hitTestSource (session_end s w) = None).
Proof.
  unfold session_end.
  destruct (sessions w !! s) as [ses|]; [|auto].
  destruct (ended ses); [auto|]. simpl.
  generalize (listeners ses). intros ls. revert w.
  induction ls as [|l ls IH]; intros w; [auto|].
  simpl. destruct (IH (run_listener s w l)) as (-> & -> & Hs).
  destruct (run_listener_marker s l w) as (-> & -> & Hs').
  split_and!; try done.
  destruct Hs as [-> | ->]; auto.
Qed.

Lemma tracking_step (w : World) (ev : Event) :
  tracking_inv w -> tracking_inv (step w ev).
Proof.
  intros N. pose proof N as ((L1 & L2 & L3) & _).
  destruct ev as [id|pid r|pid r|pid r|pid r|ts f| |s].
  - apply (tracking_transport w _ []); simpl.
    + done.
    + done.
    + by rewrite app_nil_r.
    + auto.
    + auto.
    + intros pid s [[_ H]|[_ [=]]]%lookup_snoc_Some. eauto.
  - simpl. destruct (promises w !! pid) as [[]|] eqn:Hp; try done.
    destruct r as [o|e].
    + apply (tracking_transport w _ [ARequestSession]); simpl.
      * done.
      * split_and!; simpl.
        -- rewrite length_alter, length_app. lia.
        -- exact L2.
        -- intros c [= <-]. exact L1.
      * done.
      * intros Hv. left. rewrite <- Hv.
        apply eq_sym, marker_visible_same; [done|].
        intros r' Hr'. simpl. rewrite (L2 r' Hr').
        rewrite list_lookup_alter_ne by lia. apply lookup_app_l. lia.
      * auto.
      * intros pid' s [[_ H]|[_ [=]]]%lookup_snoc_Some.
        apply settled_hit in H. eauto.
    + apply (tracking_transport w _ [ARequestSession]); simpl.
      * done.
      * split_and!; simpl; [exact L1 | exact L2 | done].
      * done.
      * auto.
      * auto.
      * intros pid' s [[_ H]|[_ [=]]]%lookup_snoc_Some.
        apply settled_hit in H. eauto.
  - simpl. destruct (promises w !! pid) as [[]|] eqn:Hp; try done.
    destruct r as [[]|e].
    all: apply (tracking_transport w _ []); simpl;
      [done | done | by rewrite app_nil_r | auto | auto |].
    all: intros pid' s H; apply settled_hit in H; eauto.
  - simpl. destruct (promises w !! pid) as [[| | s0 | |]|] eqn:Hp; try done.
    destruct r as [[]|e].
    + apply (tracking_transport w _ [ARequestHitTestSource s0]); simpl;
        [done | done | done | auto | auto |].
      intros pid' s _. right. exists s0. simpl.
      apply elem_of_app. right. apply list_elem_of_here.
    + apply (tracking_transport w _ []); simpl;
        [done | done | by rewrite app_nil_r | auto | auto |].
      intros pid' s H. apply settled_hit in H. eauto.
  - simpl. destruct (promises w !! pid) as [[| | | s0 |]|] eqn:Hp; try done.
    destruct r as [src|e].
    all: apply (tracking_transport w _ []); simpl;
      [done | done | by rewrite app_nil_r | auto | eauto |].
    all: intros pid' s H; apply settled_hit in H; eauto.
  - simpl. destruct (animationLoop w) as [[]|]; [|done].
    destruct (render_trace_grows ts f w) as [l Hl].
    pose proof (render_promises ts f w) as Hpr.
    pose proof (render_heap_length ts f w) as Hlen.
    pose proof (render_marker ts f w) as Hm.
    destruct (controls_render ts f w) as (Hc & Hr & _ & _ & Hs & _).
    destruct (render ts f w) as [w1 c1]. simpl in *.
    assert (Hrec : heap (record c1 w1) = heap w1 /\
                   reticle (record c1 w1) = reticle w1 /\
                   chair (record c1 w1) = chair w1 /\
                   hitTestSource (record c1 w1) = hitTestSource w1 /\
                   promises (record c1 w1) = promises w1 /\
                   trace (record c1 w1) = trace w1) by (by destruct c1).
    destruct Hrec as (Eh & Er & Ec & Es & Ep & Et).
    apply (tracking_transport w _ l).
    + done.
    + unfold layout. rewrite Eh, Er, Ec, Hlen, Hr, Hc. done.
    + by rewrite Et.
    + intros Hv. apply Hm. rewrite <- Hv.
      apply marker_visible_same; [by rewrite Er|]. intros. by rewrite Eh.
    + rewrite Es, Hs. auto.
    + intros pid s. rewrite Ep.
      destruct Hpr as [->|[s' ->]]; [eauto|].
      intros [[_ H]|[_ [=]]]%lookup_snoc_Some. eauto.
  - simpl. pose proof (onSelect_heap_only w) as Hw.
    pose proof (onSelect_others w) as Ho.
    assert (Hlen : length (heap (onSelect w).1) = length (heap w)).
    { unfold onSelect. destruct (chair w); [|done].
      destruct (reticle w) as [r|]; [|done].
      destruct (heap w !! r) as [R|]; [|done].
      destruct (visible R); [|done]. simpl. by rewrite !length_alter. }
    destruct (onSelect w) as [w1 c1]. simpl in *.
    assert (Hf : reticle w1 = reticle w /\ chair w1 = chair w /\
                 hitTestSource w1 = hitTestSource w /\
                 promises w1 = promises w /\ trace w1 = trace w).
    { split_and!;
        [by apply (f_equal reticle) in Hw | by apply (f_equal chair) in Hw
        |by apply (f_equal hitTestSource) in Hw
        |by apply (f_equal promises) in Hw | by apply (f_equal trace) in Hw]. }
    destruct Hf as (Er & Ec & Es & Ep & Et).
    assert (Hrec : heap (record c1 w1) = heap w1 /\
                   reticle (record c1 w1) = reticle w1 /\
                   chair (record c1 w1) = chair w1 /\
                   hitTestSource (record c1 w1) = hitTestSource w1 /\
                   promises (record c1 w1) = promises w1 /\
                   trace (record c1 w1) = trace w1) by (by destruct c1).
    destruct Hrec as (Eh' & Er' & Ec' & Es' & Ep' & Et').
    apply (tracking_transport w _ []).
    + done.
    + unfold layout. rewrite Eh', Er', Ec', Hlen, Er, Ec. done.
    + by rewrite Et', Et, app_nil_r.
    + intros Hv. left. rewrite <- Hv.
      apply eq_sym, marker_visible_same; [by rewrite Er', Er|].
      intros r Hr. rewrite Eh'. apply Ho.
      intros Hcr. specialize (L2 r Hr). specialize (L3 r Hcr). lia.
    + rewrite Es', Es. auto.
    + intros pid s. rewrite Ep', Ep. eauto.
  - simpl. destruct (session_end_keeps s w) as (Eh & Et & Ep).
    destruct (session_end_marker s w) as (Er & Ec & Es).
    apply (tracking_transport w _ []).
    + done.
    + unfold layout. by rewrite Eh, Er, Ec.
    + by rewrite Et, app_nil_r.
    + intros Hv. left. rewrite <- Hv.
      apply eq_sym, marker_visible_same; [done|]. intros. by rewrite Eh.
    + destruct Es as [-> | ->]; auto.
    + intros pid s'. rewrite Ep. eauto.
Qed.

Lemma tracking_init (gl : list string) (hdr : Settle nat) (gltf : Settle Object3D) :
  tracking_inv (initApp gl hdr gltf).
Proof.
  destruct hdr, gltf; unfold tracking_inv, layout; vm_compute;
    split_and!; try done; try lia; by intros ? [=].
Qed.

(** X13. The marker is never shown before tracking was asked for: in
    every world the program reaches, a visible marker (and likewise a
    hit-test source at hand) presupposes that the host has been asked
    for a hit-test source. *)
Theorem marker_needs_tracking (w : World) :
  reachable w ->
  (marker_visible w = true -> source_requested w) /\
  (hitTestSource w <> None -> source_requested w).
Proof.
  intros Hreach.
  assert (N : tracking_inv w).
  { induction Hreach; [apply tracking_init | by apply tracking_step]. }
  destruct N as (_ & N2 & N3 & _). by split.
Qed.

Lemma marker_needs_tracking_witness :
  marker_visible tracking = true /\ source_requested tracking.
Proof.
  split; [reflexivity|].
  refine (proj1 (marker_needs_tracking tracking _) _); [|reflexivity].
  exact (reachable_run booted tracking_trace booted_reachable).
Defined.

(** ** What the end of a session leaves behind *)

(** X14. The end of a session writes to no object and asks nothing of
    the host: every heap cell is as before, so the marker keeps its
    visibility and its matrix and the placed object its position and
    visibility (it is only taken off the scene by [onSessionEnded]), and
    the object [setupXR] refers to stays the same. *)
Theorem session_end_leaves_objects (w : World) (s : nat) :
  heap (step w (ESessionEnd s)) = heap w /\
  marker_visible (step w (ESessionEnd s)) = marker_visible w /\
  reticle (step w (ESessionEnd s)) = reticle w /\
  chair (step w (ESessionEnd s)) = chair w /\
  trace (step w (ESessionEnd s)) = trace w /\
  promises (step w (ESessionEnd s)) = promises w.
Proof.
  simpl. destruct (session_end_keeps s w) as (Eh & Et & Ep).
  destruct (session_end_marker s w) as (Er & Ec & _).
  split_and!; try done.
  apply marker_visible_same; [done|]. intros. by rewrite Eh.
Qed.

(** ** A failed acquisition *)

(** X15. When the reference-space request or the hit-test-source request
    of requestHitTestSource rejects, nothing catches it: the rejection is
    left unhandled, nothing is logged, the latch stays unset - and so the
    next frame calls requestHitTestSource again. *)
Theorem failed_acquisition_is_retried
    (w : World) (pid s : nat) (e : Error) (timestamp : Z) (f : XRFrame) :
  waiting w ->
  (promises w !! pid = Some (PRefSpace s) ->
   unhandled (step w (EReferenceSpace pid (Reject e))) = unhandled w ++ [e] /\
   console (step w (EReferenceSpace pid (Reject e))) = console w /\
   waiting (step w (EReferenceSpace pid (Reject e))) /\
   count_action AAcquireHitTest
     (step (step w (EReferenceSpace pid (Reject e)))
        (EFrame timestamp (Some f)))
   = S (count_action AAcquireHitTest w)) /\
  (promises w !! pid = Some (PHitSource s) ->
   unhandled (step w (EHitTestSource pid (Reject e))) = unhandled w ++ [e] /\
   console (step w (EHitTestSource pid (Reject e))) = console w /\
   waiting (step w (EHitTestSource pid (Reject e))) /\
   count_action AAcquireHitTest
     (step (step w (EHitTestSource pid (Reject e)))
        (EFrame timestamp (Some f)))
   = S (count_action AAcquireHitTest w)).
Proof.
  intros Hw. split; intros Hp.
  - assert (Hw' : waiting (step w (EReferenceSpace pid (Reject e))))
      by (simpl; by rewrite Hp).
    destruct (frame_while_waiting timestamp f _ Hw') as (_ & ->).
    simpl. rewrite Hp. by split_and!.
  - assert (Hw' : waiting (step w (EHitTestSource pid (Reject e))))
      by (simpl; by rewrite Hp).
    destruct (frame_while_waiting timestamp f _ Hw') as (_ & ->).
    simpl. rewrite Hp. by split_and!.
Qed.

Lemma failed_acquisition_is_retried_witness :
  count_action AAcquireHitTest
    (step (step (step in_session (EFrame 0 (Some (mkFrame []))))
             (EReferenceSpace 2 (Reject (HostError "NotSupportedError"))))
       (EFrame 16 (Some (mkFrame []))))
  = S (count_action AAcquireHitTest
         (step in_session (EFrame 0 (Some (mkFrame []))))).
Proof.
  refine (proj2 (proj2 (proj2 (proj1
            (failed_acquisition_is_retried
               (step in_session (EFrame 0 (Some (mkFrame [])))) 2 0
               (HostError "NotSupportedError") 16 (mkFrame []) _) _)))).
  - by repeat split.
  - reflexivity.
Defined.

(** ** The scene graph *)

Lemma onSessionEnded_children (cid : nat) (w : World) (d : nat) :
  d ∈ children (onSessionEnded cid w) -> d ∈ children w.
Proof.
  unfold onSessionEnded.
  destruct (closures w !! cid) as [cl|]; [|done].
  destruct (currentSession cl); [|done].
  destruct (ar_chair cl); simpl; [apply remove_child_subset | done].
Qed.

Lemma session_end_children (s : nat) (w : World) (d : nat) :
  d ∈ children (session_end s w) -> d ∈ children w.
Proof.
  unfold session_end.
  destruct (sessions w !! s) as [ses|]; [|done].
  destruct (ended ses); [done|]. simpl.
  generalize (listeners ses). intros ls. revert w.
  induction ls as [|l ls IH]; intros w; [done|].
  simpl. intros H%IH. revert H. unfold run_listener.
  destruct (registered s l w); [|done].
  destruct l; [apply onSessionEnded_children | done].
Qed.

Lemma allocated_step (w : World) (ev : Event) :
  children_allocated w -> children_allocated (step w ev).
Proof.
  intros B. destruct ev as [id|pid r|pid r|pid r|pid r|ts f| |s]; simpl.
  - done.
  - destruct (promises w !! pid) as [[]|]; try done.
    destruct r as [o|e]; [|done]. intros c. simpl.
    rewrite length_alter, length_app. simpl. unfold add_child.
    intros [H%remove_child_subset| ->%list_elem_of_singleton]%elem_of_app;
      [apply B in H|]; lia.
  - destruct (promises w !! pid) as [[]|]; try done. by destruct r as [[]|].
  - destruct (promises w !! pid) as [[]|]; try done. by destruct r.
  - destruct (promises w !! pid) as [[]|]; try done. by destruct r.
  - destruct (animationLoop w) as [[]|]; [|done].
    destruct (quiet_render ts f w) as (Hch & _).
    pose proof (render_heap_length ts f w) as Hlen.
    destruct (render ts f w) as [w1 c1]. simpl in *.
    intros c. rewrite record_heap.
    replace (children (record c1 w1)) with (children w1) by (by destruct c1).
    rewrite Hch, Hlen. apply B.
  - destruct (quiet_onSelect w) as (Hch & _).
    pose proof (onSelect_heap_only w) as Hw.
    assert (Hlen : length (heap (onSelect w).1) = length (heap w)).
    { unfold onSelect. destruct (chair w); [|done].
      destruct (reticle w) as [r|]; [|done].
      destruct (heap w !! r) as [R|]; [|done].
      destruct (visible R); [|done]. simpl. by rewrite !length_alter. }
    destruct (onSelect w) as [w1 c1]. simpl in *.
    intros c. rewrite record_heap.
    replace (children (record c1 w1)) with (children w1) by (by destruct c1).
    rewrite Hch, Hlen. apply B.
  - intros c H%session_end_children.
    destruct (session_end_keeps s w) as (-> & _). by apply B.
Qed.

(** X16. In every world the program reaches, the scene lists no object
    twice and every child is an object of the heap; so the model a click
    fetches, being new, is always appended as the last child of the
    scene. *)
Theorem scene_graph_well_formed (w : World) :
  reachable w ->
  NoDup (children w) /\
  children_allocated w /\
  (forall pid id o,
      promises w !! pid = Some (PChair id) ->
      children (step w (EChairFetched pid (Fulfil o)))
      = children w ++ [length (heap w)]).
Proof.
  intros Hreach.
  assert (B : children_allocated w).
  { induction Hreach as [gl hdr gltf|w ev _ IH]; [|by apply allocated_step].
    destruct hdr as [t|e1], gltf as [o|e2]; intros c.
    1,3: replace (children (initApp gl _ (Fulfil o))) with [0; 1; 2]
        by (vm_compute; reflexivity).
    3,4: replace (children (initApp gl _ (Reject e2))) with [0; 1]
        by (vm_compute; reflexivity).
    1,2: replace (length (heap (initApp gl _ (Fulfil o)))) with 3
        by (vm_compute; reflexivity).
    3,4: replace (length (heap (initApp gl _ (Reject e2)))) with 2
        by (vm_compute; reflexivity).
    all: rewrite ?elem_of_cons, elem_of_nil; lia. }
  split; [apply (reachable_inv w Hreach)|]. split; [exact B|].
  intros pid id o Hp. simpl. rewrite Hp. simpl. unfold add_child. f_equal.
  assert (Hnot : length (heap w) ∉ children w)
    by (intros H%B; lia).
  generalize dependent (length (heap w)). intros c Hc.
  induction (children w) as [|d cs IH]; [done|]. simpl.
  apply not_elem_of_cons in Hc as [Hne Hc].
  rewrite decide_False by done. f_equal. by apply IH.
Qed.

Lemma scene_graph_well_formed_witness :
  NoDup (children tracking) /\ children_allocated tracking.
Proof.
  pose proof (scene_graph_well_formed tracking
                (reachable_run booted tracking_trace booted_reachable)) as H.
  exact (conj (proj1 H) (proj1 (proj2 H))).
Defined.
